(** * previewData: the chorus detector of CorosDETECfunc.py

    A shallow embedding of [detectar_y_extraer_coro] and of the five
    closures it is made of (segmenter, similarity engine, scorer, expander,
    exporter), with the properties of the detector stated over it.

    Numbers.  Python floats and numpy scalars are modelled as exact
    rationals [Q]; a not-a-number correlation is a separate constructor
    ([FNaN]), since the code tests for it.  Frame indices and counts are
    [nat], the bound of the segment loop is an integer [Z] because it can
    be negative.

    Libraries.  librosa, numpy's [corrcoef], pydub and the file system are
    not code of this repository: they are the fields of [Librerias], and
    every theorem holds for every value of that record.

    Output.  The [print] calls guarded by [mostrar_info] do not influence
    any returned value and are left out. *)

From stdpp Require Import base list strings.
From Stdlib Require Import ZArith QArith Qround Lqa Lia.
From Stdlib Require Import Sorted.

Open Scope Q_scope.

(** ** Exceptions and fallible computations *)

Inductive exn : Type :=
  | FileNotFoundError (msg : string)
  | IndexError (msg : string)
  | ValueError (msg : string)
  | OtraExcepcion (msg : string).


Inductive res (A : Type) : Type :=
  | Ok (a : A)
  | Raise (e : exn).
Arguments Ok {A} a.
Arguments Raise {A} e.

Definition bind {A B : Type} (c : res A) (k : A -> res B) : res B :=
  match c with
  | Ok a => k a
  | Raise e => Raise e
  end.

Notation "'let!' x ':=' c 'in' k" := (bind c (fun x => k))
  (at level 10, x pattern, c at level 100, k at level 200).

(** [l[i]] for [i >= 0], and [l[-1]] *)
Definition getitem {A : Type} (l : list A) (i : nat) : res A :=
  match l !! i with
  | Some x => Ok x
  | None => Raise (IndexError "list index out of range")
  end.

Definition getitem_ultimo {A : Type} (l : list A) : res A :=
  match last l with
  | Some x => Ok x
  | None => Raise (IndexError "list index out of range")
  end.

(** ** Python and numpy primitives *)

(** The values taken by [i] in [for i in range(0, stop, step)], [step > 0]:
    the loop variable starts at 0 and is increased by [step] while it is
    below [stop]. *)
Fixpoint range_loop (fuel i : nat) (stop : Z) (step : nat) : list nat :=
  match fuel with
  | O => []
  | S fuel' =>
      if (Z.of_nat i <? stop)%Z
      then i :: range_loop fuel' (i + step)%nat stop step
      else []
  end.

(** [range(0, stop, step)]; a zero step is a [ValueError]. *)
Definition py_range (stop : Z) (step : nat) : res (list nat) :=
  match step with
  | O => Raise (ValueError "range() arg 3 must not be zero")
  | S _ => Ok (range_loop (Z.to_nat stop) 0 stop step)
  end.

(** [l[a:b]] for [0 <= a]; Python clamps a slice to the list. *)
Definition slice {A : Type} (a b : nat) (l : list A) : list A :=
  take (b - a) (drop a l).

(** [m[:, a:b]] on a matrix stored by rows *)
Definition slice_cols (a b : nat) (m : list (list Q)) : list (list Q) :=
  map (slice a b) m.

(** [m.flatten()] (row-major) *)
Definition flatten (m : list (list Q)) : list Q := concat m.

(** [m.shape[1]] *)
Definition shape1 (m : list (list Q)) : nat :=
  match m with
  | [] => O
  | fila :: _ => length fila
  end.

Definition Qsum (l : list Q) : Q := fold_right Qplus 0 l.

Definition np_mean (l : list Q) : Q := Qsum l / inject_Z (Z.of_nat (length l)).

Definition np_var (l : list Q) : Q :=
  let m := np_mean l in np_mean (map (fun x => (x - m) * (x - m)) l).

(** Python's [max(a, b)]: the first argument unless the second is greater. *)
Definition py_max (a b : Q) : Q := if Qle_bool b a then a else b.

(** [max(l)] on a list; the code only calls it on non-empty lists. *)
Definition py_max_list (l : list Q) : Q :=
  match l with
  | [] => 0
  | x :: l' => fold_left py_max l' x
  end.

(** ** Data model *)

(** The feature streams computed by librosa from the waveform. *)
Record caracteristicas : Type := {
  rms : list Q;
  mfcc : list (list Q);
  spectral_centroid : list Q;
  chroma : list (list Q);
  tempo : Q
}.

(** The dictionary built for each window by [analizar_segmentos_completo]. *)
Record segmento : Type := {
  inicio_s : Q;
  fin_s : Q;
  inicio_frame : nat;
  fin_frame : nat;
  energia_promedio : Q;
  energia_varianza : Q;
  centroid_promedio : Q;
  estabilidad_tonal : Q;
  mfcc_seg : list (list Q);
  chroma_seg : list (list Q)
}.

(** ** Segmenter *)

Definition frame_length : nat := 2048.
Definition hop_length : nat := 512.

(** [librosa.frames_to_time(frame, sr=sr, hop_length=hop_length)] *)
Definition frames_to_time (frame : nat) (sr : positive) : Q :=
  Z.of_nat (frame * hop_length) # sr.

(** [int(segundos * sr / hop_length)] for non-negative arguments *)
Definition segundos_a_frames (segundos : nat) (sr : positive) : nat :=
  (segundos * Pos.to_nat sr) / hop_length.

(** The body of the segment loop, for the window starting at frame [i]. *)
Definition construir_segmento (f : caracteristicas) (sr : positive)
    (ventana_frames i : nat) : segmento :=
  let inicio_frame := i in
  let fin_frame := (i + ventana_frames)%nat in
  let chroma_seg := slice_cols inicio_frame fin_frame (chroma f) in
  {| inicio_s := frames_to_time inicio_frame sr;
     fin_s := frames_to_time fin_frame sr;
     inicio_frame := inicio_frame;
     fin_frame := fin_frame;
     energia_promedio := np_mean (slice inicio_frame fin_frame (rms f));
     energia_varianza := np_var (slice inicio_frame fin_frame (rms f));
     centroid_promedio :=
       np_mean (slice inicio_frame fin_frame (spectral_centroid f));
     estabilidad_tonal := 1 / (1 + np_var (flatten chroma_seg));
     mfcc_seg := slice_cols inicio_frame fin_frame (mfcc f);
     chroma_seg := chroma_seg |}.

(** The loop of [analizar_segmentos_completo] over the feature streams:
    [for i in range(0, len(rms) - ventana_frames, hop_frames)]. *)
Definition segmentar (f : caracteristicas) (sr : positive)
    (ventana_s hop_s : nat) : res (list segmento) :=
  let ventana_frames := segundos_a_frames ventana_s sr in
  let hop_frames := segundos_a_frames hop_s sr in
  let! inicios :=
    py_range (Z.of_nat (length (rms f)) - Z.of_nat ventana_frames) hop_frames in
  Ok (map (construir_segmento f sr ventana_frames) inicios).

(** ** External libraries *)

(** A floating-point result that the code tests with [np.isnan]. *)
Inductive fnum : Type :=
  | FNum (q : Q)
  | FNaN.

(** [if np.isnan(corr): corr = 0] *)
Definition nan_a_cero (corr : fnum) : Q :=
  match corr with
  | FNaN => 0
  | FNum q => q
  end.

(** What the detector calls outside this repository.  [np_corrcoef x y] is
    [np.corrcoef(x, y)[0, 1]]; [librosa_features y sr] stands for the
    [librosa.feature] and [librosa.beat] calls at hop length 512. *)
Record Librerias : Type := {
  audio : Type;
  os_path_exists : string -> bool;
  librosa_load : string -> positive -> res (list Q);
  librosa_features : list Q -> positive -> res caracteristicas;
  np_corrcoef : list Q -> list Q -> res fnum;
  AudioSegment_from_file : string -> res audio;
  audio_len : audio -> nat;
  audio_slice : audio -> Q -> Q -> res audio;
  audio_fade_in : audio -> nat -> res audio;
  audio_fade_out : audio -> nat -> res audio;
  audio_export : audio -> string -> res unit
}.

(** ** Score records and results *)

(** The dictionary built for each segment by [calcular_score_coro]; its
    keys ['inicio_s'] and ['fin_s'] are [cand_inicio_s] and [cand_fin_s]. *)
Record puntaje : Type := {
  indice : nat;
  score_total : Q;
  score_repeticion : Q;
  energia_normalizada : Q;
  score_posicion : Q;
  repeticiones : nat;
  cand_inicio_s : Q;
  cand_fin_s : Q
}.

(** The dictionary returned by the entry point: ['exito': True] with the
    six result keys, or ['exito': False] with ['error']. *)
Inductive resultado : Type :=
  | Exito (r_inicio_s r_fin_s r_duracion_s r_score : Q)
          (r_repeticiones : nat) (r_archivo_salida : string)
  | Fallo (error : string).

Definition exito (r : resultado) : bool :=
  match r with
  | Exito _ _ _ _ _ _ => true
  | Fallo _ => false
  end.

(** ** Similarity matrix *)

Abbreviation matriz := (list (list Q)).

(** [np.zeros((n, m))] *)
Definition np_zeros (n m : nat) : matriz := replicate n (replicate m 0).

(** [a[i, :]], [a[i, j]] and [a[i, j] = v]; the loops below only use
    indices below [n_segmentos], where numpy does not raise. *)
Definition fila (a : matriz) (i : nat) : list Q := default [] (a !! i).

Definition mget (a : matriz) (i j : nat) : Q := default 0 (fila a i !! j).

Definition mset (a : matriz) (i j : nat) (v : Q) : matriz :=
  alter (fun f => <[j := v]> f) i a.

(** ** The detector *)

Section Detector.

Variable L : Librerias.



(** One of the two guarded correlations of [calcular_similitudes]. *)
Definition correlacion (a b : list (list Q)) : res Q :=
  if (shape1 a =? shape1 b)%nat then
    let! corr := np_corrcoef L (flatten a) (flatten b) in
    Ok (nan_a_cero corr)
  else Ok 0.

(** The body of the [try] block for one pair. *)
Definition similitud_par (seg1 seg2 : segmento) : res Q :=
  let! corr_mfcc := correlacion (mfcc_seg seg1) (mfcc_seg seg2) in
  let! corr_chroma := correlacion (chroma_seg seg1) (chroma_seg seg2) in
  Ok (corr_mfcc * 0.7 + corr_chroma * 0.3).

(** The [try]/[except] statement: the value written at [(i, j)] and
    [(j, i)]. *)
Definition valor_par (seg1 seg2 : segmento) : Q :=
  match similitud_par seg1 seg2 with
  | Ok similitud => similitud
  | Raise _ => 0
  end.

(** The body of the inner loop.  [i] and [j] range below
    [len(segmentos)], so both lookups succeed (see [pares_lookup]). *)
Definition paso_similitud (segmentos : list segmento) (similitudes : matriz)
    (i j : nat) : matriz :=
  match segmentos !! i, segmentos !! j with
  | Some seg1, Some seg2 =>
      let v := valor_par seg1 seg2 in
      mset (mset similitudes i j v) j i v
  | _, _ => similitudes
  end.

(** [calcular_similitudes(segmentos)]:
    [for i in range(n): for j in range(i + 1, n): ...] *)
Definition calcular_similitudes (segmentos : list segmento) : matriz :=
  let n_segmentos := length segmentos in
  fold_left
    (fun similitudes i =>
       fold_left (fun similitudes j => paso_similitud segmentos similitudes i j)
                 (seq (S i) (n_segmentos - S i)) similitudes)
    (seq 0 n_segmentos)
    (np_zeros n_segmentos n_segmentos).

(** [segmentos[-1]['fin_s']] inside the scoring loop, where the list is
    not empty. *)
Definition ultimo_fin_s (segmentos : list segmento) : Q :=
  match last segmentos with
  | Some s => fin_s s
  | None => 0
  end.

(** [np.sum(similitudes[i, :] > 0.6)] *)
Definition contar_repeticiones (similitudes : matriz) (i : nat) : nat :=
  length (List.filter (fun x => negb (Qle_bool x 0.6)) (fila similitudes i)).

(** The three-band position score. *)
Definition puntaje_posicion (posicion_relativa : Q) : Q :=
  if Qle_bool 0.25 posicion_relativa && Qle_bool posicion_relativa 0.75
  then 1.0
  else if Qle_bool 0.15 posicion_relativa && Qle_bool posicion_relativa 0.85
  then 0.7
  else 0.3.

(** The body of the loop of [calcular_score_coro]. *)
Definition puntuar (segmentos : list segmento) (similitudes : matriz)
    (i : nat) (seg : segmento) : puntaje :=
  let repeticiones := contar_repeticiones similitudes i in
  let score_repeticion :=
    inject_Z (Z.of_nat repeticiones) / inject_Z (Z.of_nat (length segmentos)) in
  let energias := map energia_promedio segmentos in
  let energia_normalizada := energia_promedio seg / py_max_list energias in
  let posicion_relativa := inicio_s seg / ultimo_fin_s segmentos in
  let score_posicion := puntaje_posicion posicion_relativa in
  let estabilidades := map estabilidad_tonal segmentos in
  let estabilidad_normalizada :=
    estabilidad_tonal seg / py_max_list estabilidades in
  let varianzas := map energia_varianza segmentos in
  let varianza_normalizada :=
    1.0 - energia_varianza seg / py_max_list varianzas in
  let score_total :=
    score_repeticion * 0.35 + energia_normalizada * 0.25
    + score_posicion * 0.15 + estabilidad_normalizada * 0.15
    + varianza_normalizada * 0.10 in
  {| indice := i;
     score_total := score_total;
     score_repeticion := score_repeticion;
     energia_normalizada := energia_normalizada;
     score_posicion := score_posicion;
     repeticiones := repeticiones;
     cand_inicio_s := inicio_s seg;
     cand_fin_s := fin_s seg |}.

(** [sorted(scores, key=lambda x: x['score_total'], reverse=True)]: a
    stable sort, records of equal score keep their order. *)
Fixpoint insertar (x : puntaje) (l : list puntaje) : list puntaje :=
  match l with
  | [] => [x]
  | y :: l' =>
      if Qle_bool (score_total y) (score_total x)
      then x :: l
      else y :: insertar x l'
  end.

Definition sorted_desc (l : list puntaje) : list puntaje :=
  fold_right insertar [] l.

(** [calcular_score_coro(segmentos, similitudes)] *)
Definition calcular_score_coro (segmentos : list segmento)
    (similitudes : matriz) : list puntaje :=
  sorted_desc (imap (puntuar segmentos similitudes) segmentos).

(** [expandir_segmento(mejor_segmento, segmentos_originales,
    duracion_objetivo)] *)
Definition expandir_segmento (mejor_segmento : puntaje)
    (segmentos_originales : list segmento) (duracion_objetivo : Q)
    : res (Q * Q) :=
  let idx := indice mejor_segmento in
  let! seg_original := getitem segmentos_originales idx in
  let inicio_actual := inicio_s seg_original in
  let fin_actual := fin_s seg_original in
  let duracion_actual := fin_actual - inicio_actual in
  if Qle_bool duracion_objetivo duracion_actual
  then Ok (inicio_actual, fin_actual)
  else
    let expansion_necesaria := duracion_objetivo - duracion_actual in
    let expansion_cada_lado := expansion_necesaria / 2 in
    let nuevo_inicio := py_max 0 (inicio_actual - expansion_cada_lado) in
    let nuevo_fin := fin_actual + expansion_cada_lado in
    let! ultimo := getitem_ultimo segmentos_originales in
    let duracion_total := fin_s ultimo in
    if negb (Qle_bool nuevo_fin duracion_total)
    then
      let nuevo_fin := duracion_total in
      let nuevo_inicio := py_max 0 (nuevo_fin - duracion_objetivo) in
      Ok (nuevo_inicio, nuevo_fin)
    else Ok (nuevo_inicio, nuevo_fin).

(** [exportar_coro_refinado(path, inicio_s, fin_s, salida)] *)
Definition exportar_coro_refinado (path : string) (inicio fin : Q)
    (salida : string) : res unit :=
  let! pista := AudioSegment_from_file L path in
  let! fragmento := audio_slice L pista (inicio * 1000) (fin * 1000) in
  let fade_duration := Nat.min 1000 (audio_len L fragmento / 10) in
  let! fragmento := audio_fade_in L fragmento fade_duration in
  let! fragmento := audio_fade_out L fragmento fade_duration in
  audio_export L fragmento salida.



End Detector.

(** ** Definitions used to state the properties *)

(** Number of values of [range(0, stop, step)]: the least [n] with
    [n * step >= stop]. *)
Definition range_len (stop : Z) (step : nat) : nat :=
  Z.to_nat ((stop + Z.of_nat step - 1) / Z.of_nat step).

(** The segment count as the specification words it:
    floor((total_frames - window_frames) / stride_frames) + 1. *)
Definition conteo_spec (total_frames window_frames stride_frames : nat) : Z :=
  (Z.of_nat total_frames - Z.of_nat window_frames) / Z.of_nat stride_frames + 1.

(** The rows below [n] of a matrix have [n] entries. *)
Definition cuadrada (n : nat) (a : matriz) : Prop :=
  forall i, (i < n)%nat -> length (fila a i) = n.

(** The pairs [(i, j)] visited by the two loops of [calcular_similitudes],
    in the order of the visits. *)
Definition pares (n : nat) : list (nat * nat) :=
  flat_map (fun i => map (pair i) (seq (S i) (n - S i))) (seq 0 n).

Definition paso_par (L : Librerias) (segmentos : list segmento) (a : matriz)
    (p : nat * nat) : matriz :=
  paso_similitud L segmentos a (fst p) (snd p).

(** The value the loop writes for the pair [(i, j)]. *)
Definition valor (L : Librerias) (segmentos : list segmento) (i j : nat) : Q :=
  match segmentos !! i, segmentos !! j with
  | Some seg1, Some seg2 => valor_par L seg1 seg2
  | _, _ => 0
  end.

(** The number of columns [j < n] of row [i] above the threshold, and the
    same count over the columns other than [i]. *)
Definition cuenta_similares (a : matriz) (n i : nat) : nat :=
  length (List.filter (fun j => negb (Qle_bool (mget a i j) 0.6)) (seq 0 n)).

Definition cuenta_otros_similares (a : matriz) (n i : nat) : nat :=
  length (List.filter
            (fun j => negb (j =? i)%nat && negb (Qle_bool (mget a i j) 0.6))
            (seq 0 n)).

(** A segment lies inside the track, whose duration the code takes to be
    the end of the last segment. *)
Definition dentro_de_pista (segmentos : list segmento) (seg : segmento) : Prop :=
  0 <= inicio_s seg /\ fin_s seg <= ultimo_fin_s segmentos.

(** ** An executable instance of the libraries

    Used to run the definitions on concrete inputs.  Pearson's correlation
    is computed in exact arithmetic, the square root being exact on squares
    of rationals and truncated to twelve decimals otherwise. *)

Definition raiz_aprox (q : Q) : Q :=
  let r := Qred q in
  Z.sqrt (Qnum r * Z.pos (Qden r) * 10 ^ 24) # (Qden r * 10 ^ 12).

Definition pearson (x y : list Q) : res fnum :=
  if negb (length x =? length y)%nat
  then Raise (ValueError "all the input array dimensions must match exactly")
  else
    let mx := Qred (np_mean x) in
    let my := Qred (np_mean y) in
    let dx := map (fun a => Qred (a - mx)) x in
    let dy := map (fun b => Qred (b - my)) y in
    let suma := fold_right (fun a s => Qred (a + s)) 0 in
    let cov := suma (zip_with Qmult dx dy) in
    let vx := suma (map (fun a => a * a) dx) in
    let vy := suma (map (fun b => b * b) dy) in
    if Qeq_bool (vx * vy) 0
    then Ok FNaN
    else Ok (FNum (Qred (cov / raiz_aprox (vx * vy)))).

(** Feature streams of [n] frames with two timbral and two harmonic rows. *)
Definition caracteristicas_de (n : nat) : caracteristicas :=
  {| rms := map (fun k => inject_Z (Z.of_nat (1 + k mod 3))) (seq 0 n);
     mfcc := [map (fun k => inject_Z (Z.of_nat (k mod 5))) (seq 0 n);
              map (fun k => inject_Z (Z.of_nat (k mod 7))) (seq 0 n)];
     spectral_centroid := map (fun k => inject_Z (Z.of_nat (k mod 2))) (seq 0 n);
     chroma := [map (fun k => inject_Z (Z.of_nat (k mod 4))) (seq 0 n);
                map (fun k => inject_Z (Z.of_nat (k mod 6))) (seq 0 n)];
     tempo := 120 |}.

(** Every path exists; a waveform yields [1 + len(y) // hop_length] frames;
    an audio clip is its length in milliseconds. *)
Definition libs_prueba : Librerias :=
  {| audio := Z;
     os_path_exists := fun _ => true;
     librosa_load := fun _ _ => Ok (replicate 1024 0);
     librosa_features := fun y _ =>
       Ok (caracteristicas_de (1 + length y / hop_length));
     np_corrcoef := pearson;
     AudioSegment_from_file := fun _ => Ok 90000%Z;
     audio_len := Z.to_nat;
     audio_slice := fun a inicio fin => Ok (Qfloor fin - Qfloor inicio)%Z;
     audio_fade_in := fun a _ => Ok a;
     audio_fade_out := fun a _ => Ok a;
     audio_export := fun _ _ => Ok tt |}.

(** A segment given by its bounds and its two sub-matrices. *)
Definition segmento_de (inicio fin : Q) (m c : list (list Q)) : segmento :=
  {| inicio_s := inicio;
     fin_s := fin;
     inicio_frame := 0;
     fin_frame := 0;
     energia_promedio := 1;
     energia_varianza := 1;
     centroid_promedio := 1;
     estabilidad_tonal := 1;
     mfcc_seg := m;
     chroma_seg := c |}.

(** Three segments of a 90 s track; the first and the last carry the same
    timbral and harmonic content. *)
Definition trio_prueba : list segmento :=
  [segmento_de 2 14 [[1; 2; 3]] [[1; 2; 4]];
   segmento_de 45 57 [[3; 1; 2]] [[2; 1; 1]];
   segmento_de 78 90 [[1; 2; 3]] [[1; 2; 4]]].

(** Two segments whose timbral widths differ (2 and 3 frames) while their
    harmonic widths agree. *)
Definition par_desigual : list segmento :=
  [segmento_de 0 12 [[1; 2]] [[1; 2]];
   segmento_de 2 14 [[1; 2; 3]] [[1; 2]]].

(** Streams that are not frame-aligned: four energy frames, three timbral
    frames, two harmonic frames. *)
Definition streams_desalineados : caracteristicas :=
  {| rms := [1; 1; 1; 1];
     mfcc := [[1; 2; 3]];
     spectral_centroid := [1; 1; 1; 1];
     chroma := [[1; 2]];
     tempo := 120 |}.

(** A score record that only carries the index of its segment. *)
Definition candidato (i : nat) : puntaje :=
  {| indice := i;
     score_total := 0;
     score_repeticion := 0;
     energia_normalizada := 0;
     score_posicion := 0;
     repeticiones := 0;
     cand_inicio_s := 0;
     cand_fin_s := 0 |}.

(** ** Further definitions used to state the properties *)

(** Streams are frame-aligned: every timbral and harmonic row has one
    entry per energy frame, and there is at least one row of each. *)
Definition streams_alineados (f : caracteristicas) : Prop :=
  mfcc f <> [] /\ chroma f <> []
  /\ Forall (fun fila => length fila = length (rms f)) (mfcc f)
  /\ Forall (fun fila => length fila = length (rms f)) (chroma f).

(** The correlations the library returns lie in [-1, 1]. *)
Definition corrcoef_acotado (L : Librerias) : Prop :=
  forall x y q, np_corrcoef L x y = Ok (FNum q) -> -1 <= q <= 1.

(** [x] is ranked before [y]: a greater total score, or the same score and
    an earlier segment. *)
Definition precede (x y : puntaje) : Prop :=
  score_total y < score_total x
  \/ (score_total y == score_total x /\ (indice x < indice y)%nat).

Definition antes (x y : puntaje) : Prop := (indice x < indice y)%nat.

(** None of the three normalisations of the scorer divides by zero: the
    greatest mean energy, tonal stability and energy variance are not
    zero, so that every total score is a number. *)
Definition divisores_no_nulos (segmentos : list segmento) : Prop :=
  ~ py_max_list (map energia_promedio segmentos) == 0
  /\ ~ py_max_list (map estabilidad_tonal segmentos) == 0
  /\ ~ py_max_list (map energia_varianza segmentos) == 0.

(** The mean energies, energy variances and tonal stabilities of the
    segments are not negative and their maxima are positive: none of the
    three normalisations divides by zero. *)
Definition normalizable (segmentos : list segmento) : Prop :=
  Forall (fun s => 0 <= energia_promedio s /\ 0 <= energia_varianza s
                   /\ 0 <= estabilidad_tonal s) segmentos
  /\ 0 < py_max_list (map energia_promedio segmentos)
  /\ 0 < py_max_list (map energia_varianza segmentos)
  /\ 0 < py_max_list (map estabilidad_tonal segmentos).

(** * The batch driver of ProcesarDataset.py *)

(** A Python [str]: the list of its code points. *)
Abbreviation texto := (list N).

(** What the driver takes from [unicodedata], from the character classes
    of [re] and from [str.strip]. *)
Record Unicode : Type := {
  nfkd : texto -> texto;
  combining : N -> bool;
  es_palabra : N -> bool;
  es_espacio : N -> bool;
  es_espacio_str : N -> bool
}.

(** [s.replace(viejo, nuevo)] for two one-character strings *)
Definition reemplazar (viejo nuevo : N) (s : texto) : texto :=
  map (fun c => if (c =? viejo)%N then nuevo else c) s.

(** The characters of the first class: less-than, greater-than, colon,
    double quote, slash, backslash, vertical bar, question mark and
    asterisk. *)
Definition prohibidos : list N := [60; 62; 58; 34; 47; 92; 124; 63; 42]%N.

Definition es_prohibido (c : N) : bool :=
  existsb (fun p => (c =? p)%N) prohibidos.

Definition guion : N := 45%N.
Definition guion_bajo : N := 95%N.

(** [re.sub(clase, '', s)] for a class of single characters *)
Definition quitar (clase : N -> bool) (s : texto) : texto :=
  List.filter (fun c => negb (clase c)) s.

(** [s.strip()] *)
Fixpoint lstrip (blanco : N -> bool) (s : texto) : texto :=
  match s with
  | [] => []
  | c :: s' => if blanco c then lstrip blanco s' else s
  end.

Definition strip (blanco : N -> bool) (s : texto) : texto :=
  rev (lstrip blanco (rev (lstrip blanco s))).

(** [re.sub(r'\s+', '_', s)]: every maximal run of white space becomes one
    underscore; [en_blanco] tells that the previous character was white. *)
Fixpoint colapsar (blanco : N -> bool) (en_blanco : bool) (s : texto) : texto :=
  match s with
  | [] => []
  | c :: s' =>
      if blanco c
      then (if en_blanco then colapsar blanco true s'
            else guion_bajo :: colapsar blanco true s')
      else c :: colapsar blanco false s'
  end.

(** [normalizar_nombre(nombre)] *)
Definition normalizar_nombre (U : Unicode) (nombre : texto) : texto :=
  let nombre := nfkd U nombre in
  let nombre := List.filter (fun c => negb (combining U c)) nombre in
  let nombre := reemplazar 322 108 nombre in
  let nombre := reemplazar 321 76 nombre in
  let nombre := reemplazar 324 110 nombre in
  let nombre := reemplazar 347 115 nombre in
  let nombre := reemplazar 378 122 nombre in
  let nombre := reemplazar 380 122 nombre in
  let nombre := quitar es_prohibido nombre in
  let nombre :=
    quitar (fun c => negb (es_palabra U c || es_espacio U c || (c =? guion)%N))
           nombre in
  let nombre := colapsar (es_espacio U) false (strip (es_espacio_str U) nombre) in
  if (100 <? length nombre)%nat then take 100 nombre else nombre.

(** A file found by [glob], with the outcome of [f.stat().st_mtime]. *)
Record archivo : Type := {
  ruta : string;
  st_mtime : res Q
}.

(** [max(archivos, key=...)] on a non-empty list: the keys are computed in
    order, the first element with the greatest key wins. *)
Fixpoint py_max_key (mejor : archivo) (clave : Q) (resto : list archivo)
    : res archivo :=
  match resto with
  | [] => Ok mejor
  | a :: resto' =>
      let! k := st_mtime a in
      if Qle_bool k clave
      then py_max_key mejor clave resto'
      else py_max_key a k resto'
  end.

(** [buscar_mp3_descargado(directorio)], given the three [glob] results *)
Definition buscar_mp3_descargado (mp3 m4a wav : list archivo)
    : res (option archivo) :=
  let archivos_audio := mp3 ++ m4a ++ wav in
  match archivos_audio with
  | [] => Ok None
  | a :: resto =>
      let! k := st_mtime a in
      let! mejor := py_max_key a k resto in
      Ok (Some mejor)
  end.

(** A cell of a row of [csv.DictReader]: the column is missing from the
    header, the row is too short for it ([None]), or it holds text. *)
Inductive celda : Type :=
  | Ausente
  | Nulo
  | Texto (s : texto).

Record fila_csv : Type := {
  track_name : celda;
  track_artist : celda
}.

(** [row.get(columna, '').strip()] *)
Definition leer_celda (U : Unicode) (c : celda) : res texto :=
  match c with
  | Ausente => Ok (strip (es_espacio_str U) [])
  | Nulo => Raise (OtraExcepcion "'NoneType' object has no attribute 'strip'")
  | Texto s => Ok (strip (es_espacio_str U) s)
  end.

(** [not s] *)
Definition vacio (s : texto) : bool :=
  match s with
  | [] => true
  | _ :: _ => false
  end.

(** How a call of [procesar_cancion] ends for the main loop: it returns,
    it raises an [Exception], or the user interrupts it. *)
Inductive salida_cancion : Type :=
  | Termina (ok : bool)
  | Lanza (e : exn)
  | Interrumpe.

(** The dictionary written by [guardar_progreso], without its time
    stamp. *)
Record progreso : Type := {
  ultima_fila : nat;
  exitosas : nat;
  fallidas : nat
}.

(** The operations on the progress file. *)
Inductive evento : Type :=
  | Guardar (p : progreso)
  | BorrarSiExiste.

(** The counters of the main loop. *)
Record contadores : Type := {
  c_procesadas : nat;
  c_exitosas : nat;
  c_fallidas : nat
}.

(** How the loop stops: at the end of the rows, by [KeyboardInterrupt] or
    by an [Exception], at row [i]. *)
Inductive parada : Type :=
  | FinDeFilas
  | Interrumpida (i : nat)
  | Abortada (i : nat) (e : exn).

Definition contar (ok : bool) (c : contadores) : contadores :=
  {| c_procesadas := c_procesadas c;
     c_exitosas := if ok then S (c_exitosas c) else c_exitosas c;
     c_fallidas := if ok then c_fallidas c else S (c_fallidas c) |}.

Section Lote.

Variable U : Unicode.
Variable procesar_cancion : texto -> texto -> nat -> salida_cancion.

(** [for i, row in enumerate(filas, 1): ...], from row number [i] on *)
Fixpoint bucle (ultima_fila_procesada i : nat) (filas : list fila_csv)
    (c : contadores) : parada * contadores * list evento :=
  match filas with
  | [] => (FinDeFilas, c, [])
  | row :: resto =>
      if (i <=? ultima_fila_procesada)%nat
      then bucle ultima_fila_procesada (S i) resto c
      else
        match leer_celda U (track_name row) with
        | Raise e => (Abortada i e, c, [])
        | Ok track =>
            match leer_celda U (track_artist row) with
            | Raise e => (Abortada i e, c, [])
            | Ok artist =>
                if vacio track || vacio artist
                then bucle ultima_fila_procesada (S i) resto c
                else
                  let c := {| c_procesadas := S (c_procesadas c);
                              c_exitosas := c_exitosas c;
                              c_fallidas := c_fallidas c |} in
                  match procesar_cancion track artist i with
                  | Interrumpe => (Interrumpida i, c, [])
                  | salida =>
                      let c :=
                        match salida with
                        | Termina ok => contar ok c
                        | _ => contar false c
                        end in
                      let guardado :=
                        if (i mod 5 =? 0)%nat
                        then [Guardar {| ultima_fila := i;
                                         exitosas := c_exitosas c;
                                         fallidas := c_fallidas c |}]
                        else [] in
                      let '(p, c', eventos) :=
                        bucle ultima_fila_procesada (S i) resto c in
                      (p, c', guardado ++ eventos)
                  end
            end
        end
  end.

(** The main block from [cargar_progreso] on, given the rows of the CSV
    file: how it ends, the final counters and the operations on the
    progress file. *)
Definition principal (inicial : progreso) (filas : list fila_csv)
    : parada * contadores * list evento :=
  let total_canciones := length filas in
  let '(p, c, eventos) :=
    bucle (ultima_fila inicial) 1 filas
      {| c_procesadas := 0;
         c_exitosas := exitosas inicial;
         c_fallidas := fallidas inicial |} in
  match p with
  | FinDeFilas =>
      let final := Guardar {| ultima_fila := total_canciones;
                              exitosas := c_exitosas c;
                              fallidas := c_fallidas c |} in
      match filas with
      | [] =>
          (Abortada 0 (OtraExcepcion "name 'i' is not defined"), c,
           eventos ++ [final])
      | _ :: _ => (FinDeFilas, c, eventos ++ [final; BorrarSiExiste])
      end
  | Interrumpida i | Abortada i _ =>
      (p, c, eventos ++ [Guardar {| ultima_fila := i;
                                    exitosas := c_exitosas c;
                                    fallidas := c_fallidas c |}])
  end.

End Lote.

(** ** Definitions used to state the properties of the main loop *)

(** One more interrupted call than counted calls. *)
Definition pendiente (p : parada) : nat :=
  match p with
  | Interrumpida _ => 1
  | _ => 0
  end.

(** What holds of a run of the loop from row [i] over [n] rows, started
    with the counters [c] and ended with [c']. *)
Definition evento_ok (ult i n : nat) (c c' : contadores) (ev : evento) : Prop :=
  exists g,
    ev = Guardar g
    /\ (i <= ultima_fila g < i + n)%nat
    /\ (ult < ultima_fila g)%nat
    /\ (ultima_fila g mod 5 = 0)%nat
    /\ (c_exitosas c <= exitosas g <= c_exitosas c')%nat
    /\ (c_fallidas c <= fallidas g <= c_fallidas c')%nat.

Definition bucle_ok (ult i n : nat) (c : contadores) (p : parada)
    (c' : contadores) (evs : list evento) : Prop :=
  (c_exitosas c' + c_fallidas c' + c_procesadas c + pendiente p
   = c_exitosas c + c_fallidas c + c_procesadas c')%nat
  /\ (c_exitosas c <= c_exitosas c')%nat
  /\ (c_fallidas c <= c_fallidas c')%nat
  /\ (c_procesadas c' <= c_procesadas c + n)%nat
  /\ match p with
     | FinDeFilas => True
     | Interrumpida j | Abortada j _ => (i <= j < i + n)%nat /\ (ult < j)%nat
     end
  /\ Forall (evento_ok ult i n c c') evs.

(** ** More instances for concrete runs *)

(** [np.clip(c, -1, 1)] on the result of the correlation, as numpy does
    before it returns. *)
Definition recortar (r : res fnum) : res fnum :=
  match r with
  | Ok (FNum q) =>
      Ok (FNum (if Qle_bool q (-1) then -1
                else if Qle_bool 1 q then 1 else q))
  | _ => r
  end.

Definition libs_recortada : Librerias :=
  {| audio := Z;
     os_path_exists := fun _ => true;
     librosa_load := fun _ _ => Ok (replicate 1024 0);
     librosa_features := fun y _ =>
       Ok (caracteristicas_de (1 + length y / hop_length));
     np_corrcoef := fun x y => recortar (pearson x y);
     AudioSegment_from_file := fun _ => Ok 90000%Z;
     audio_len := Z.to_nat;
     audio_slice := fun a inicio fin => Ok (Qfloor fin - Qfloor inicio)%Z;
     audio_fade_in := fun a _ => Ok a;
     audio_fade_out := fun a _ => Ok a;
     audio_export := fun _ _ => Ok tt |}.



(** Unicode restricted to ASCII: nothing decomposes or combines, word
    characters are letters, digits and the underscore, white space is the
    space and the five control characters from tab to carriage return. *)
Definition unicode_ascii : Unicode :=
  {| nfkd := fun s => s;
     combining := fun _ => false;
     es_palabra := fun c =>
       ((48 <=? c) && (c <=? 57) || (65 <=? c) && (c <=? 90)
        || (97 <=? c) && (c <=? 122) || (c =? 95))%N;
     es_espacio := fun c => ((c =? 32) || (9 <=? c) && (c <=? 13))%N;
     es_espacio_str := fun c => ((c =? 32) || (9 <=? c) && (c <=? 13))%N |}.

(** Six rows: the third lacks its artist, the others are complete. *)
Definition filas_prueba : list fila_csv :=
  [{| track_name := Texto [97]%N; track_artist := Texto [98]%N |};
   {| track_name := Texto [99]%N; track_artist := Texto [100]%N |};
   {| track_name := Texto [101]%N; track_artist := Texto [32]%N |};
   {| track_name := Texto [102]%N; track_artist := Texto [103]%N |};
   {| track_name := Texto [104]%N; track_artist := Texto [105]%N |};
   {| track_name := Texto [106]%N; track_artist := Texto [107]%N |}].

(** The songs of the even rows succeed, those of the odd rows fail. *)
Definition oraculo_par (track artist : texto) (i : nat) : salida_cancion :=
  Termina (Nat.even i).

(** The same, with the user interrupting the song of row 4. *)
Definition oraculo_interrumpido (track artist : texto) (i : nat)
    : salida_cancion :=
  if (i =? 4)%nat then Interrumpe else Termina (Nat.even i).

Definition sin_progreso : progreso :=
  {| ultima_fila := 0; exitosas := 0; fallidas := 0 |}.

(** * Properties *)

(** ** The range loop and the segment loop *)

Lemma range_len_nonpos stop step :
  (0 < step)%nat -> (stop <= 0)%Z -> range_len stop step = 0%nat.
Proof.
  intros Hs Hle. unfold range_len.
  assert ((stop + Z.of_nat step - 1) / Z.of_nat step < 1)%Z; [|lia].
  apply Z.div_lt_upper_bound; lia.
Qed.

Lemma range_len_pos stop step :
  (0 < step)%nat -> (0 < stop)%Z ->
  range_len stop step = S (range_len (stop - Z.of_nat step) step).
Proof.
  intros Hs Hlt. unfold range_len.
  replace (stop + Z.of_nat step - 1)%Z
    with (1 * Z.of_nat step + (stop - Z.of_nat step + Z.of_nat step - 1))%Z
    by lia.
  rewrite Z.div_add_l by lia.
  rewrite Z2Nat.inj_add; [reflexivity | lia |].
  apply Z.div_pos; lia.
Qed.

Lemma range_loop_spec fuel : forall i stop step,
  (0 < step)%nat -> (stop - Z.of_nat i <= Z.of_nat fuel)%Z ->
  range_loop fuel i stop step =
  map (fun k => (i + k * step)%nat)
      (seq 0 (range_len (stop - Z.of_nat i) step)).
Proof.
  induction fuel as [|fuel IH]; intros i stop step Hs Hf; simpl.
  - rewrite range_len_nonpos by lia. reflexivity.
  - destruct (Z.ltb_spec (Z.of_nat i) stop) as [Hlt|Hge].
    + rewrite IH by lia.
      rewrite (range_len_pos (stop - Z.of_nat i)) by lia.
      replace (stop - Z.of_nat i - Z.of_nat step)%Z
        with (stop - Z.of_nat (i + step))%Z by lia.
      simpl. f_equal; [lia|].
      rewrite <- seq_shift, map_map. apply map_ext. intros k. lia.
    + rewrite range_len_nonpos by lia. reflexivity.
Qed.

Lemma py_range_spec stop step :
  (0 < step)%nat ->
  py_range stop step =
  Ok (map (fun k => (k * step)%nat) (seq 0 (range_len stop step))).
Proof.
  intros Hs. unfold py_range. destruct step as [|s]; [lia|].
  rewrite range_loop_spec by lia.
  replace (stop - Z.of_nat 0)%Z with stop by lia. reflexivity.
Qed.



(** At the sample rate of [cargar_audio] the 12 s window is 516 frames and
    the 2 s stride is 86 frames. *)
Example ventana_frames_22050 : segundos_a_frames 12 22050 = 516%nat.
Proof. reflexivity. Qed.

Example hop_frames_22050 : segundos_a_frames 2 22050 = 86%nat.
Proof. reflexivity. Qed.

(** ** Cells of the similarity matrix *)

Lemma fila_mset a i j v x :
  fila (mset a i j v) x = if decide (x = i) then <[j := v]> (fila a i) else fila a x.
Proof.
  unfold fila, mset. case_decide as Hx.
  - subst x. rewrite list_lookup_alter_eq. destruct (a !! i); reflexivity.
  - rewrite list_lookup_alter_ne by congruence. reflexivity.
Qed.

Lemma mget_mset_eq a i j v :
  (j < length (fila a i))%nat -> mget (mset a i j v) i j = v.
Proof.
  intros Hj. unfold mget. rewrite fila_mset, decide_True by reflexivity.
  rewrite list_lookup_insert_eq by assumption. reflexivity.
Qed.

Lemma mget_mset_ne a i j v x y :
  (x, y) <> (i, j) -> mget (mset a i j v) x y = mget a x y.
Proof.
  intros Hne. unfold mget. rewrite fila_mset. case_decide as Hx; [|reflexivity].
  subst x. rewrite list_lookup_insert_ne; [reflexivity|congruence].
Qed.

Lemma cuadrada_mset n a i j v : cuadrada n a -> cuadrada n (mset a i j v).
Proof.
  intros Ha x Hx. rewrite fila_mset. case_decide.
  - subst. rewrite length_insert. apply Ha, Hx.
  - apply Ha, Hx.
Qed.

Lemma fila_zeros n m i : (i < n)%nat -> fila (np_zeros n m) i = replicate m 0.
Proof.
  intros Hi. unfold fila, np_zeros. rewrite lookup_replicate_2 by assumption.
  reflexivity.
Qed.

Lemma cuadrada_zeros n : cuadrada n (np_zeros n n).
Proof. intros i Hi. rewrite fila_zeros by assumption. apply length_replicate. Qed.

Lemma mget_zeros n m i j : mget (np_zeros n m) i j = 0.
Proof.
  unfold mget, fila, np_zeros.
  destruct (replicate n (replicate m 0) !! i) as [r|] eqn:Hr; simpl; [|reflexivity].
  apply lookup_replicate in Hr as [-> _].
  destruct (replicate m 0 !! j) as [q|] eqn:Hq; simpl; [|reflexivity].
  apply lookup_replicate in Hq as [-> _]. reflexivity.
Qed.


(** ** The two loops of the similarity engine *)

Lemma elem_of_pares n i j : (i, j) ∈ pares n <-> (i < j < n)%nat.
Proof.
  unfold pares. rewrite list_elem_of_In, in_flat_map. split.
  - intros (x & Hx & Hin). apply in_map_iff in Hin as (y & Heq & Hy).
    inversion Heq; subst. apply in_seq in Hy. lia.
  - intros Hij. exists i. split; [apply in_seq; lia|].
    apply in_map_iff. exists j. split; [reflexivity|apply in_seq; lia].
Qed.

Section Similitudes.

Variable L : Librerias.
Variable segmentos : list segmento.

Local Abbreviation paso_par := (paso_par L segmentos).
Local Abbreviation valor := (valor L segmentos).


Lemma calcular_similitudes_pares :
  calcular_similitudes L segmentos =
  fold_left paso_par (pares (length segmentos))
            (np_zeros (length segmentos) (length segmentos)).
Proof.
  unfold calcular_similitudes, pares.
  generalize (np_zeros (length segmentos) (length segmentos)).
  generalize (length segmentos) at 1 3 as n.
  generalize (seq 0 (length segmentos)) as idxs.
  intros idxs n. induction idxs as [|i idxs IH]; intros a; simpl; [reflexivity|].
  rewrite fold_left_app, IH. f_equal.
  generalize (seq (S i) (n - S i)) as js. intros js. revert a.
  induction js as [|j js IHj]; intros a; simpl; [reflexivity|].
  apply IHj.
Qed.


Lemma cuadrada_paso n a p : cuadrada n a -> cuadrada n (paso_par a p).
Proof.
  intros Ha. unfold paso_par, paso_similitud.
  destruct (segmentos !! p.1); [|assumption].
  destruct (segmentos !! p.2); [|assumption].
  by do 2 apply cuadrada_mset.
Qed.

Lemma mget_paso_otro a p x y :
  (x, y) <> (p.1, p.2) -> (x, y) <> (p.2, p.1) ->
  mget (paso_par a p) x y = mget a x y.
Proof.
  intros H1 H2. unfold paso_par, paso_similitud.
  destruct (segmentos !! p.1); [|reflexivity].
  destruct (segmentos !! p.2); [|reflexivity].
  by rewrite !mget_mset_ne.
Qed.

Lemma mget_paso_escrito n a i j :
  cuadrada n a -> (i < n)%nat -> (j < n)%nat ->
  length segmentos = n ->
  mget (paso_par a (i, j)) i j = valor i j /\
  mget (paso_par a (i, j)) j i = valor i j.
Proof.
  intros Ha Hi Hj Hn. unfold paso_par, paso_similitud, valor. simpl.
  destruct (lookup_lt_is_Some_2 segmentos i) as [s1 ->]; [lia|].
  destruct (lookup_lt_is_Some_2 segmentos j) as [s2 ->]; [lia|].
  split.
  - destruct (decide (i = j)) as [->|Hne].
    + apply mget_mset_eq. rewrite (cuadrada_mset n) by assumption. assumption.
    + rewrite mget_mset_ne by congruence. apply mget_mset_eq.
      by rewrite Ha.
  - apply mget_mset_eq. rewrite (cuadrada_mset n) by assumption. assumption.
Qed.

Lemma fold_paso_inv n (ps : list (nat * nat)) : forall a,
  length segmentos = n -> cuadrada n a ->
  Forall (fun p => (p.1 < p.2 < n)%nat) ps ->
  cuadrada n (fold_left paso_par ps a) /\
  (forall i j, (i, j) ∈ ps ->
     mget (fold_left paso_par ps a) i j = valor i j /\
     mget (fold_left paso_par ps a) j i = valor i j) /\
  (forall x y, (x, y) ∉ ps -> (y, x) ∉ ps ->
     mget (fold_left paso_par ps a) x y = mget a x y).
Proof.
  induction ps as [|[i j] ps IH]; intros a Hn Ha Hps; simpl.
  - split; [assumption|]. split; [|reflexivity].
    intros i j Hin. by apply elem_of_nil in Hin.
  - apply Forall_cons in Hps as [Hij Hps]. simpl in Hij.
    destruct (IH (paso_par a (i, j)) Hn (cuadrada_paso n a (i, j) Ha) Hps)
      as (Hc & Hw & Ho).
    split; [assumption|]. split.
    + intros x y Hin.
      destruct (decide ((x, y) ∈ ps)) as [Hin'|Hnin]; [by apply Hw|].
      apply elem_of_cons in Hin as [Heq|Hin]; [|contradiction].
      inversion Heq; subst x y.
      destruct (decide ((j, i) ∈ ps)) as [Hji|Hji].
      { rewrite Forall_forall in Hps. apply Hps in Hji. simpl in Hji. lia. }
      rewrite (Ho i j), (Ho j i) by assumption.
      apply (mget_paso_escrito n); [assumption|lia|lia|assumption].
    + intros x y Hxy Hyx.
      apply not_elem_of_cons in Hxy as [Hxy Hxy'].
      apply not_elem_of_cons in Hyx as [Hyx Hyx'].
      rewrite Ho by assumption.
      apply mget_paso_otro; simpl; congruence.
Qed.

End Similitudes.

Lemma similitudes_cuadrada L segs :
  cuadrada (length segs) (calcular_similitudes L segs).
Proof.
  rewrite calcular_similitudes_pares.
  apply (fold_paso_inv L segs (length segs)); [reflexivity|apply cuadrada_zeros|].
  apply Forall_forall. intros [i j] Hin. by apply elem_of_pares in Hin.
Qed.

Lemma similitudes_entrada L segs i j :
  (i < j < length segs)%nat ->
  mget (calcular_similitudes L segs) i j = valor L segs i j /\
  mget (calcular_similitudes L segs) j i = valor L segs i j.
Proof.
  intros Hij. rewrite calcular_similitudes_pares.
  apply (fold_paso_inv L segs (length segs)); [reflexivity|apply cuadrada_zeros| |].
  - apply Forall_forall. intros [x y] Hin. by apply elem_of_pares in Hin.
  - by apply elem_of_pares.
Qed.

Lemma similitudes_no_escrita L segs i j :
  ~ (i < j < length segs)%nat -> ~ (j < i < length segs)%nat ->
  mget (calcular_similitudes L segs) i j = 0.
Proof.
  intros Hij Hji. rewrite calcular_similitudes_pares.
  destruct (fold_paso_inv L segs (length segs) (pares (length segs))
              (np_zeros (length segs) (length segs))) as (_ & _ & Ho);
    [reflexivity|apply cuadrada_zeros| |].
  - apply Forall_forall. intros [x y] Hin. by apply elem_of_pares in Hin.
  - rewrite Ho; [apply mget_zeros| |]; by rewrite elem_of_pares.
Qed.

Lemma similitudes_diagonal L segs i :
  mget (calcular_similitudes L segs) i i = 0.
Proof. apply similitudes_no_escrita; lia. Qed.

(** C7.  The matrix returned by [calcular_similitudes] is symmetric, entry
    [(i, j)] equals entry [(j, i)] for all [i] and [j], whatever
    [np.corrcoef] returns or raises for the pairs, and every diagonal entry
    is zero. *)
Theorem C7_similitudes_simetrica (L : Librerias) (segmentos : list segmento)
    (i j : nat) :
  mget (calcular_similitudes L segmentos) i j
  = mget (calcular_similitudes L segmentos) j i
  /\ mget (calcular_similitudes L segmentos) i i = 0.
Proof.
  split; [|apply similitudes_diagonal].
  destruct (decide (i < j < length segmentos)%nat) as [Hij|Hij].
  { destruct (similitudes_entrada L segmentos i j Hij) as [-> ->]. reflexivity. }
  destruct (decide (j < i < length segmentos)%nat) as [Hji|Hji].
  { destruct (similitudes_entrada L segmentos j i Hji) as [-> ->]. reflexivity. }
  rewrite !similitudes_no_escrita by assumption. reflexivity.
Qed.

(** ** The value written for one pair *)

Lemma correlacion_iguales L a b c :
  shape1 a = shape1 b ->
  np_corrcoef L (flatten a) (flatten b) = Ok c ->
  correlacion L a b = Ok (nan_a_cero c).
Proof.
  intros Hw Hc. unfold correlacion.
  rewrite (proj2 (Nat.eqb_eq _ _) Hw), Hc. reflexivity.
Qed.

Lemma correlacion_distintas L a b :
  shape1 a <> shape1 b -> correlacion L a b = Ok 0.
Proof.
  intros Hw. unfold correlacion.
  rewrite (proj2 (Nat.eqb_neq _ _) Hw). reflexivity.
Qed.

Lemma correlacion_falla L a b e :
  shape1 a = shape1 b ->
  np_corrcoef L (flatten a) (flatten b) = Raise e ->
  correlacion L a b = Raise e.
Proof.
  intros Hw Hc. unfold correlacion.
  rewrite (proj2 (Nat.eqb_eq _ _) Hw), Hc. reflexivity.
Qed.

Lemma valor_par_ok L s1 s2 cm cc :
  correlacion L (mfcc_seg s1) (mfcc_seg s2) = Ok cm ->
  correlacion L (chroma_seg s1) (chroma_seg s2) = Ok cc ->
  valor_par L s1 s2 = cm * 0.7 + cc * 0.3.
Proof. intros Hm Hc. unfold valor_par, similitud_par. by rewrite Hm, Hc. Qed.

Lemma valor_par_falla_mfcc L s1 s2 e :
  correlacion L (mfcc_seg s1) (mfcc_seg s2) = Raise e ->
  valor_par L s1 s2 = 0.
Proof. intros Hm. unfold valor_par, similitud_par. by rewrite Hm. Qed.

Lemma valor_par_falla_chroma L s1 s2 e :
  correlacion L (chroma_seg s1) (chroma_seg s2) = Raise e ->
  valor_par L s1 s2 = 0.
Proof.
  intros Hc. unfold valor_par, similitud_par.
  destruct (correlacion L (mfcc_seg s1) (mfcc_seg s2)); simpl; [|reflexivity].
  by rewrite Hc.
Qed.

Lemma similitudes_par L segs i j s1 s2 :
  (i < j)%nat -> segs !! i = Some s1 -> segs !! j = Some s2 ->
  mget (calcular_similitudes L segs) i j = valor_par L s1 s2.
Proof.
  intros Hij H1 H2.
  assert (Hj : (j < length segs)%nat) by (eapply lookup_lt_Some; eassumption).
  destruct (similitudes_entrada L segs i j) as [-> _]; [lia|].
  unfold valor. by rewrite H1, H2.
Qed.

(** C6.  For a pair of segments [i < j] the entry [(i, j)] of the
    similarity matrix is 0.7 times the timbral correlation plus 0.3 times
    the harmonic correlation, where a not-a-number correlation counts as 0
    and where a width mismatch of one kind of sub-matrix makes the
    correlation of that kind count as 0: the entry is 0.3 times the
    harmonic correlation when only the timbral widths differ, 0.7 times the
    timbral correlation when only the harmonic widths differ, and zero when
    both differ.  When a call of [np.corrcoef] made for the pair raises, the
    entry is 0; the matrix is returned in every case. *)
Theorem C6_similitud_por_canal (L : Librerias) (segmentos : list segmento)
    (i j : nat) (seg1 seg2 : segmento) :
  (i < j)%nat ->
  segmentos !! i = Some seg1 ->
  segmentos !! j = Some seg2 ->
  let similitud := mget (calcular_similitudes L segmentos) i j in
  let x_mfcc := np_corrcoef L (flatten (mfcc_seg seg1)) (flatten (mfcc_seg seg2)) in
  let x_chroma :=
    np_corrcoef L (flatten (chroma_seg seg1)) (flatten (chroma_seg seg2)) in
  let ancho_mfcc := shape1 (mfcc_seg seg1) = shape1 (mfcc_seg seg2) in
  let ancho_chroma := shape1 (chroma_seg seg1) = shape1 (chroma_seg seg2) in
  (forall cm cc, ancho_mfcc -> ancho_chroma ->
     x_mfcc = Ok cm -> x_chroma = Ok cc ->
     similitud = nan_a_cero cm * 0.7 + nan_a_cero cc * 0.3)
  /\ (forall cc, ~ ancho_mfcc -> ancho_chroma -> x_chroma = Ok cc ->
        similitud = 0 * 0.7 + nan_a_cero cc * 0.3)
  /\ (forall cm, ancho_mfcc -> ~ ancho_chroma -> x_mfcc = Ok cm ->
        similitud = nan_a_cero cm * 0.7 + 0 * 0.3)
  /\ (~ ancho_mfcc -> ~ ancho_chroma -> similitud == 0)
  /\ (forall e, (ancho_mfcc /\ x_mfcc = Raise e)
                \/ (ancho_chroma /\ x_chroma = Raise e) ->
        similitud = 0).
Proof.
  intros Hij H1 H2 similitud x_mfcc x_chroma ancho_mfcc ancho_chroma.
  subst similitud. rewrite (similitudes_par L segmentos i j seg1 seg2) by assumption.
  repeat split.
  - intros cm cc Wm Wc Xm Xc. apply valor_par_ok; by apply correlacion_iguales.
  - intros cc Wm Wc Xc.
    apply valor_par_ok; [by apply correlacion_distintas|by apply correlacion_iguales].
  - intros cm Wm Wc Xm.
    apply valor_par_ok; [by apply correlacion_iguales|by apply correlacion_distintas].
  - intros Wm Wc.
    rewrite (valor_par_ok L seg1 seg2 0 0) by (by apply correlacion_distintas).
    reflexivity.
  - intros e [[Wm Xm]|[Wc Xc]].
    + eapply valor_par_falla_mfcc. by apply correlacion_falla.
    + eapply valor_par_falla_chroma. by apply correlacion_falla.
Qed.

(** ** The expander *)

Lemma py_max_0_nonneg x : 0 <= py_max 0 x.
Proof.
  unfold py_max. destruct (Qle_bool x 0) eqn:Hx; [lra|].
  apply not_true_iff_false in Hx. rewrite Qle_bool_iff in Hx. lra.
Qed.

Lemma py_max_0_nonpos x : x <= 0 -> py_max 0 x = 0.
Proof.
  intros Hx. unfold py_max. apply Qle_bool_iff in Hx. by rewrite Hx.
Qed.

Lemma py_max_0_pos x : 0 < x -> py_max 0 x = x.
Proof.
  intros Hx. unfold py_max. destruct (Qle_bool x 0) eqn:Hle; [|reflexivity].
  apply Qle_bool_iff in Hle. lra.
Qed.

Lemma ultimo_fin_s_last segs ult :
  last segs = Some ult -> ultimo_fin_s segs = fin_s ult.
Proof. intros H. unfold ultimo_fin_s. by rewrite H. Qed.

Lemma lookup_last_is_Some {A} (l : list A) i x :
  l !! i = Some x -> exists u, last l = Some u.
Proof.
  intros H. destruct (last l) eqn:Hl; [eauto|].
  apply last_None in Hl. subst. by rewrite lookup_nil in H.
Qed.

(** C8.  When the raw duration of the winning segment, end minus start, is at
    least the target duration, [expandir_segmento] returns the bounds of
    that segment unchanged. *)
Theorem C8_expandir_identidad (mejor : puntaje) (segmentos : list segmento)
    (duracion_objetivo : Q) (seg : segmento) :
  segmentos !! indice mejor = Some seg ->
  duracion_objetivo <= fin_s seg - inicio_s seg ->
  expandir_segmento mejor segmentos duracion_objetivo
  = Ok (inicio_s seg, fin_s seg).
Proof.
  intros Hseg Hdur. unfold expandir_segmento, getitem. rewrite Hseg. simpl.
  apply Qle_bool_iff in Hdur. by rewrite Hdur.
Qed.

(** C9.  [expandir_segmento] returns a start that is not negative and an end
    that does not exceed the track duration (the end of the last segment).
    A segment shorter than the target is expanded by half the shortfall on
    each side, the start clamped at 0; when the expanded end exceeds the
    track duration the end is the track duration and the start is the end
    minus the target, clamped at 0, so that the returned duration is at
    most the target.  The bounds of a segment that is already long enough
    are returned as they are, and lie inside the track for the segments of
    the segmenter ([segmentar_dentro_de_pista]). *)
Theorem C9_expandir_dentro_de_pista (mejor : puntaje)
    (segmentos : list segmento) (duracion_objetivo : Q) (seg : segmento) :
  segmentos !! indice mejor = Some seg ->
  (duracion_objetivo <= fin_s seg - inicio_s seg ->
   dentro_de_pista segmentos seg) ->
  let duracion_total := ultimo_fin_s segmentos in
  let mitad := (duracion_objetivo - (fin_s seg - inicio_s seg)) / 2 in
  exists nuevo_inicio nuevo_fin,
    expandir_segmento mejor segmentos duracion_objetivo
    = Ok (nuevo_inicio, nuevo_fin)
    /\ 0 <= nuevo_inicio
    /\ nuevo_fin <= duracion_total
    /\ (fin_s seg - inicio_s seg < duracion_objetivo ->
        fin_s seg + mitad <= duracion_total ->
        nuevo_inicio = py_max 0 (inicio_s seg - mitad)
        /\ nuevo_fin = fin_s seg + mitad)
    /\ (fin_s seg - inicio_s seg < duracion_objetivo ->
        duracion_total < fin_s seg + mitad ->
        nuevo_fin = duracion_total
        /\ nuevo_inicio = py_max 0 (duracion_total - duracion_objetivo)
        /\ nuevo_fin - nuevo_inicio <= duracion_objetivo).
Proof.
  intros Hseg Hdentro duracion_total mitad.
  destruct (lookup_last_is_Some _ _ _ Hseg) as [ult Hult].
  subst duracion_total. unfold dentro_de_pista in Hdentro.
  rewrite (ultimo_fin_s_last _ _ Hult) in *.
  unfold expandir_segmento, getitem, getitem_ultimo. rewrite Hseg, Hult. simpl.
  fold mitad.
  destruct (Qle_bool duracion_objetivo (fin_s seg - inicio_s seg)) eqn:Hlargo.
  { apply Qle_bool_iff in Hlargo. destruct (Hdentro Hlargo) as [Hini Hfin].
    exists (inicio_s seg), (fin_s seg). repeat split; try assumption; lra. }
  apply not_true_iff_false in Hlargo. rewrite Qle_bool_iff in Hlargo.
  destruct (Qle_bool (fin_s seg + mitad) (fin_s ult)) eqn:Hcabe; simpl.
  - apply Qle_bool_iff in Hcabe.
    exists (py_max 0 (inicio_s seg - mitad)), (fin_s seg + mitad).
    repeat split; try assumption; try lra. apply py_max_0_nonneg.
  - apply not_true_iff_false in Hcabe. rewrite Qle_bool_iff in Hcabe.
    exists (py_max 0 (fin_s ult - duracion_objetivo)), (fin_s ult).
    repeat split; try lra; try apply py_max_0_nonneg.
    destruct (Qlt_le_dec 0 (fin_s ult - duracion_objetivo)) as [Hp|Hp].
    + rewrite py_max_0_pos by assumption. lra.
    + rewrite py_max_0_nonpos by assumption. lra.
Qed.

(** C10.  When the start of the winning segment is less than half the
    shortfall and the expanded end does not exceed the track duration,
    [expandir_segmento] returns the window from 0 to the original end plus
    half the shortfall, whose duration is strictly less than the target:
    nothing is added at the end for what was cut at the start. *)
Theorem C10_expandir_inicio_recortado (mejor : puntaje)
    (segmentos : list segmento) (duracion_objetivo : Q) (seg : segmento) :
  segmentos !! indice mejor = Some seg ->
  let mitad := (duracion_objetivo - (fin_s seg - inicio_s seg)) / 2 in
  fin_s seg - inicio_s seg < duracion_objetivo ->
  inicio_s seg < mitad ->
  fin_s seg + mitad <= ultimo_fin_s segmentos ->
  expandir_segmento mejor segmentos duracion_objetivo
  = Ok (0, fin_s seg + mitad)
  /\ (fin_s seg + mitad) - 0 < duracion_objetivo.
Proof.
  intros Hseg mitad Hcorto Hini Hcabe.
  destruct (lookup_last_is_Some _ _ _ Hseg) as [ult Hult].
  rewrite (ultimo_fin_s_last _ _ Hult) in Hcabe.
  unfold expandir_segmento, getitem, getitem_ultimo. rewrite Hseg, Hult. simpl.
  fold mitad.
  assert (Hmitad : 2 * mitad == duracion_objetivo - (fin_s seg - inicio_s seg))
    by (unfold mitad; field).
  clearbody mitad. split; [|lra].
  destruct (Qle_bool duracion_objetivo (fin_s seg - inicio_s seg)) eqn:Hlargo.
  { apply Qle_bool_iff in Hlargo. lra. }
  apply Qle_bool_iff in Hcabe. rewrite Hcabe. simpl.
  rewrite py_max_0_nonpos by lra. reflexivity.
Qed.

(** ** Segments produced by the segmenter *)

Lemma frames_to_time_nonneg k sr : 0 <= frames_to_time k sr.
Proof.
  unfold frames_to_time, Qle. cbn [Qnum Qden].
  rewrite Z.mul_0_l, Z.mul_1_r. apply Nat2Z.is_nonneg.
Qed.

Lemma frames_to_time_mono a b sr :
  (a <= b)%nat -> frames_to_time a sr <= frames_to_time b sr.
Proof.
  intros Hab. unfold frames_to_time, Qle. cbn [Qnum Qden].
  apply Z.mul_le_mono_nonneg_r; [lia|].
  apply Nat2Z.inj_le, Nat.mul_le_mono_r, Hab.
Qed.

Lemma last_map {A B} (g : A -> B) (l : list A) :
  last (map g l) = option_map g (last l).
Proof.
  induction l as [|x [|y l] IH]; [reflexivity|reflexivity|].
  change (last (map g (y :: l)) = option_map g (last (y :: l))). exact IH.
Qed.

Lemma segmentar_spec f sr ventana_s hop_s :
  (0 < segundos_a_frames hop_s sr)%nat ->
  segmentar f sr ventana_s hop_s =
  Ok (map (fun k => construir_segmento f sr (segundos_a_frames ventana_s sr)
                      (k * segundos_a_frames hop_s sr))
          (seq 0 (range_len (Z.of_nat (length (rms f))
                             - Z.of_nat (segundos_a_frames ventana_s sr))
                            (segundos_a_frames hop_s sr)))).
Proof.
  intros Hs. unfold segmentar. rewrite py_range_spec by assumption. simpl.
  by rewrite map_map.
Qed.

Lemma segmentar_dentro_de_pista f sr ventana_s hop_s segs seg :
  segmentar f sr ventana_s hop_s = Ok segs ->
  seg ∈ segs -> dentro_de_pista segs seg.
Proof.
  intros Hsegs Hin.
  destruct (segundos_a_frames hop_s sr) as [|s] eqn:Hs.
  { unfold segmentar in Hsegs. rewrite Hs in Hsegs. discriminate. }
  rewrite segmentar_spec in Hsegs by lia. rewrite Hs in Hsegs.
  injection Hsegs as <-.
  set (w := segundos_a_frames ventana_s sr) in *.
  set (n := range_len _ _) in *.
  apply list_elem_of_In, in_map_iff in Hin as (k & <- & Hk).
  apply in_seq in Hk.
  unfold dentro_de_pista, ultimo_fin_s. rewrite last_map.
  destruct n as [|n]; [lia|].
  rewrite seq_S, last_snoc. simpl.
  split; [apply frames_to_time_nonneg|].
  apply frames_to_time_mono. nia.
Qed.

(** ** The sort and the score records *)

Lemma insertar_perm x l : insertar x l ≡ₚ x :: l.
Proof.
  induction l as [|y l IH]; simpl; [reflexivity|].
  destruct (Qle_bool (score_total y) (score_total x)); [reflexivity|].
  rewrite IH. apply Permutation_swap.
Qed.

Lemma sorted_desc_perm l : sorted_desc l ≡ₚ l.
Proof.
  induction l as [|x l IH]; simpl; [reflexivity|].
  by rewrite insertar_perm, IH.
Qed.

Lemma elem_of_calcular_score_coro segs sims r :
  r ∈ calcular_score_coro segs sims <->
  exists i seg, segs !! i = Some seg /\ r = puntuar segs sims i seg.
Proof.
  unfold calcular_score_coro. rewrite sorted_desc_perm, elem_of_lookup_imap.
  split; intros (i & seg & H1 & H2); eauto.
Qed.

Lemma length_filter_map {A B} (p : B -> bool) (g : A -> B) (l : list A) :
  length (List.filter p (map g l)) = length (List.filter (fun x => p (g x)) l).
Proof.
  induction l as [|x l IH]; simpl; [reflexivity|].
  destruct (p (g x)); simpl; by rewrite IH.
Qed.

Lemma length_filter_indices (p : Q -> bool) (l : list Q) :
  length (List.filter p l) =
  length (List.filter (fun j => p (default 0 (l !! j))) (seq 0 (length l))).
Proof.
  induction l as [|x l IH]; [reflexivity|].
  change (length (x :: l)) with (S (length l)).
  rewrite <- cons_seq, <- seq_shift.
  cbn [List.filter lookup list_lookup default from_option id].
  destruct (p x); cbn [length]; rewrite length_filter_map; by rewrite IH.
Qed.

Lemma length_filter_lt {A} (p : A -> bool) (l : list A) x :
  In x l -> p x = false -> (length (List.filter p l) < length l)%nat.
Proof.
  intros Hin Hp. induction l as [|y l IH]; [destruct Hin|].
  simpl. pose proof (filter_length_le p l) as Hle.
  destruct Hin as [->|Hin].
  - rewrite Hp. lia.
  - specialize (IH Hin). destruct (p y); simpl; lia.
Qed.

Lemma contar_repeticiones_cuenta a n i :
  length (fila a i) = n -> contar_repeticiones a i = cuenta_similares a n i.
Proof.
  intros Hn. unfold contar_repeticiones, cuenta_similares.
  rewrite length_filter_indices, Hn. reflexivity.
Qed.

Lemma cuenta_similares_otros a n i :
  mget a i i = 0 -> cuenta_similares a n i = cuenta_otros_similares a n i.
Proof.
  intros Hd. unfold cuenta_similares, cuenta_otros_similares.
  f_equal. apply List.filter_ext. intros j.
  destruct (Nat.eqb_spec j i) as [->|Hne]; [|reflexivity].
  rewrite Hd. reflexivity.
Qed.

Lemma cuenta_otros_lt a n i :
  (i < n)%nat -> (cuenta_otros_similares a n i < n)%nat.
Proof.
  intros Hi. unfold cuenta_otros_similares.
  eapply Nat.lt_le_trans;
    [apply (length_filter_lt _ _ i); [apply in_seq; lia|]|by rewrite length_seq].
  by rewrite Nat.eqb_refl.
Qed.

Lemma cociente_en_unidad (c n : nat) :
  (c <= n)%nat -> (0 < n)%nat ->
  0 <= inject_Z (Z.of_nat c) / inject_Z (Z.of_nat n) <= 1.
Proof.
  intros Hc Hn.
  assert (Hn' : 0 < inject_Z (Z.of_nat n)).
  { change 0 with (inject_Z 0). rewrite <- Zlt_Qlt. lia. }
  assert (Hc0 : 0 <= inject_Z (Z.of_nat c)).
  { change 0 with (inject_Z 0). rewrite <- Zle_Qle. lia. }
  assert (Hcn : inject_Z (Z.of_nat c) <= inject_Z (Z.of_nat n)).
  { rewrite <- Zle_Qle. lia. }
  split.
  - apply Qle_shift_div_l; [assumption|]. lra.
  - apply Qle_shift_div_r; [assumption|]. lra.
Qed.

(** C4.  For segment [i] of [N] segments, the record built by
    [calcular_score_coro] has a repetition score equal to the number of
    [j] with similarity [(i, j)] above 0.6, divided by [N]; the count is
    the same over the segments other than [i], the diagonal entry being
    zero; and the score lies between 0 and 1. *)
Theorem C4_score_repeticion (L : Librerias) (segmentos : list segmento)
    (i : nat) (seg : segmento) :
  segmentos !! i = Some seg ->
  let similitudes := calcular_similitudes L segmentos in
  let N := length segmentos in
  let r := puntuar segmentos similitudes i seg in
  r ∈ calcular_score_coro segmentos similitudes
  /\ (forall r', r' ∈ calcular_score_coro segmentos similitudes ->
                 indice r' = i -> r' = r)
  /\ repeticiones r = cuenta_similares similitudes N i
  /\ cuenta_similares similitudes N i = cuenta_otros_similares similitudes N i
  /\ score_repeticion r
     = inject_Z (Z.of_nat (cuenta_similares similitudes N i))
       / inject_Z (Z.of_nat N)
  /\ 0 <= score_repeticion r <= 1.
Proof.
  intros Hseg similitudes N r.
  assert (Hi : (i < N)%nat) by (eapply lookup_lt_Some; eassumption).
  assert (Hfila : length (fila similitudes i) = N)
    by (apply similitudes_cuadrada; assumption).
  assert (Hrep : repeticiones r = cuenta_similares similitudes N i)
    by (apply contar_repeticiones_cuenta; assumption).
  assert (Hotros : cuenta_similares similitudes N i
                   = cuenta_otros_similares similitudes N i)
    by (apply cuenta_similares_otros, similitudes_diagonal).
  assert (Hscore : score_repeticion r
                   = inject_Z (Z.of_nat (cuenta_similares similitudes N i))
                     / inject_Z (Z.of_nat N)).
  { unfold r, puntuar. cbn [score_repeticion]. fold N.
    by rewrite (contar_repeticiones_cuenta _ N). }
  split; [apply elem_of_calcular_score_coro; eauto|].
  split.
  { intros r' Hr' Hidx.
    apply elem_of_calcular_score_coro in Hr' as (i' & seg' & Hseg' & ->).
    cbn [indice puntuar] in Hidx. subst i'.
    rewrite Hseg in Hseg'. by injection Hseg' as <-. }
  repeat split; try assumption.
  - rewrite Hscore. apply cociente_en_unidad; [|lia].
    rewrite Hotros. pose proof (cuenta_otros_lt similitudes N i Hi). lia.
  - rewrite Hscore. apply cociente_en_unidad; [|lia].
    rewrite Hotros. pose proof (cuenta_otros_lt similitudes N i Hi). lia.
Qed.

(** ** The position score *)

Lemma puntaje_posicion_centro p :
  0.25 <= p <= 0.75 -> puntaje_posicion p = 1.0.
Proof.
  intros [H1 H2]. unfold puntaje_posicion.
  apply Qle_bool_iff in H1, H2. by rewrite H1, H2.
Qed.

Lemma puntaje_posicion_medio p :
  0.15 <= p <= 0.85 -> ~ (0.25 <= p <= 0.75) -> puntaje_posicion p = 0.7.
Proof.
  intros [H1 H2] Hn. unfold puntaje_posicion.
  destruct (Qle_bool 0.25 p && Qle_bool p 0.75) eqn:Hc.
  { apply andb_true_iff in Hc as [Ha Hb].
    apply Qle_bool_iff in Ha, Hb. tauto. }
  apply Qle_bool_iff in H1, H2. by rewrite H1, H2.
Qed.

Lemma puntaje_posicion_borde p :
  ~ (0.15 <= p <= 0.85) -> puntaje_posicion p = 0.3.
Proof.
  intros Hn. unfold puntaje_posicion.
  destruct (Qle_bool 0.25 p && Qle_bool p 0.75) eqn:Hc.
  { apply andb_true_iff in Hc as [Ha Hb].
    apply Qle_bool_iff in Ha, Hb. exfalso. apply Hn. lra. }
  destruct (Qle_bool 0.15 p && Qle_bool p 0.85) eqn:Hm; [|reflexivity].
  apply andb_true_iff in Hm as [Ha Hb].
  apply Qle_bool_iff in Ha, Hb. tauto.
Qed.

Lemma posicion_fraccion inicio total c :
  0 < total -> inicio == c * total -> inicio / total == c.
Proof. intros Ht Hi. rewrite Hi. field. lra. Qed.

(** C5.  The position score of a segment is computed from its start time
    divided by the track duration (the end of the last segment): it is 1.0
    when that ratio lies in [0.25, 0.75], 0.7 when it lies in [0.15, 0.85]
    outside the first band, and 0.3 otherwise; so 1.0 for a start at 50 %
    of the track, 0.7 at 20 %, 0.3 at 5 % and at 95 %. *)
Theorem C5_score_posicion (segmentos : list segmento) (similitudes : matriz)
    (i : nat) (seg : segmento) :
  segmentos !! i = Some seg ->
  let duracion_total := ultimo_fin_s segmentos in
  let posicion_relativa := inicio_s seg / duracion_total in
  let r := puntuar segmentos similitudes i seg in
  r ∈ calcular_score_coro segmentos similitudes
  /\ (0.25 <= posicion_relativa <= 0.75 -> score_posicion r = 1.0)
  /\ (0.15 <= posicion_relativa <= 0.85 ->
      ~ (0.25 <= posicion_relativa <= 0.75) -> score_posicion r = 0.7)
  /\ (~ (0.15 <= posicion_relativa <= 0.85) -> score_posicion r = 0.3)
  /\ (0 < duracion_total ->
      (inicio_s seg == 0.5 * duracion_total -> score_posicion r = 1.0)
      /\ (inicio_s seg == 0.2 * duracion_total -> score_posicion r = 0.7)
      /\ (inicio_s seg == 0.05 * duracion_total -> score_posicion r = 0.3)
      /\ (inicio_s seg == 0.95 * duracion_total -> score_posicion r = 0.3)).
Proof.
  intros Hseg duracion_total posicion_relativa r.
  change (score_posicion r) with (puntaje_posicion posicion_relativa).
  split; [apply elem_of_calcular_score_coro; eauto|].
  split; [apply puntaje_posicion_centro|].
  split; [apply puntaje_posicion_medio|].
  split; [apply puntaje_posicion_borde|].
  intros Ht. repeat split; intros Hi;
    pose proof (posicion_fraccion _ _ _ Ht Hi) as Hp;
    fold posicion_relativa in Hp.
  - apply puntaje_posicion_centro. lra.
  - apply puntaje_posicion_medio; lra.
  - apply puntaje_posicion_borde. lra.
  - apply puntaje_posicion_borde. lra.
Qed.

(** ** Segment count *)

Lemma range_len_multiplo (c s : nat) :
  (0 < s)%nat -> range_len (Z.of_nat (s * c)) s = c.
Proof.
  intros Hs. unfold range_len.
  replace (Z.of_nat (s * c) + Z.of_nat s - 1)%Z
    with (Z.of_nat c * Z.of_nat s + (Z.of_nat s - 1))%Z by lia.
  rewrite Z.div_add_l by lia.
  rewrite Z.div_small by lia. lia.
Qed.

Lemma range_len_no_multiplo (T : Z) (s : nat) :
  (0 < s)%nat -> (0 < T)%Z -> (T mod Z.of_nat s <> 0)%Z ->
  Z.of_nat (range_len T s) = (T / Z.of_nat s + 1)%Z.
Proof.
  intros Hs HT Hmod. unfold range_len.
  pose proof (Z.div_mod T (Z.of_nat s) ltac:(lia)) as Hdm.
  pose proof (Z.mod_pos_bound T (Z.of_nat s) ltac:(lia)) as Hb.
  pose proof (Z.div_pos T (Z.of_nat s) ltac:(lia) ltac:(lia)) as Hq.
  set (q := (T / Z.of_nat s)%Z) in *. set (r := (T mod Z.of_nat s)%Z) in *.
  replace (T + Z.of_nat s - 1)%Z
    with ((q + 1) * Z.of_nat s + (r - 1))%Z by lia.
  rewrite Z.div_add_l by lia.
  rewrite Z.div_small by lia. lia.
Qed.

(** C2.  The count of the specification is
    floor((total_frames - window_frames) / stride_frames) + 1, the windows
    starting at every multiple of the stride up to
    total_frames - window_frames.  When the stride divides
    total_frames - window_frames, the loop of the segmenter stops one
    window short of it: it produces one segment fewer, and no segment starts
    at frame total_frames - window_frames, although that window is
    complete.  (Off such totals the two counts agree, see
    [segmentar_conteo_no_alineado].) *)
Theorem C2_conteo_ventana_alineada (f : caracteristicas) (sr : positive)
    (ventana_s hop_s : nat) :
  let window_frames := segundos_a_frames ventana_s sr in
  let stride_frames := segundos_a_frames hop_s sr in
  let total_frames := length (rms f) in
  (0 < stride_frames)%nat ->
  (window_frames <= total_frames)%nat ->
  ((total_frames - window_frames) mod stride_frames = 0)%nat ->
  exists segmentos,
    segmentar f sr ventana_s hop_s = Ok segmentos
    /\ Z.of_nat (length segmentos)
       = (conteo_spec total_frames window_frames stride_frames - 1)%Z
    /\ (forall seg, seg ∈ segmentos ->
          (inicio_frame seg < total_frames - window_frames)%nat).
Proof.
  intros w s t Hs Hw Hmod.
  apply Nat.Div0.mod_divides in Hmod as [c Hc].
  assert (HT : (Z.of_nat t - Z.of_nat w)%Z = Z.of_nat (s * c)) by lia.
  eexists. split; [apply segmentar_spec; assumption|].
  fold w s t. rewrite HT, range_len_multiplo by assumption.
  split.
  - rewrite length_map, length_seq. unfold conteo_spec. rewrite HT.
    rewrite Nat2Z.inj_mul, Z.mul_comm, Z.div_mul by lia. lia.
  - intros seg Hin.
    apply list_elem_of_In, in_map_iff in Hin as (k & <- & Hk).
    apply in_seq in Hk. cbn [inicio_frame construir_segmento]. nia.
Qed.

Lemma segmentar_conteo_no_alineado f sr ventana_s hop_s :
  let w := segundos_a_frames ventana_s sr in
  let s := segundos_a_frames hop_s sr in
  let t := length (rms f) in
  (0 < s)%nat -> (w < t)%nat -> ((t - w) mod s <> 0)%nat ->
  exists segs, segmentar f sr ventana_s hop_s = Ok segs
    /\ Z.of_nat (length segs) = conteo_spec t w s.
Proof.
  intros w s t Hs Hw Hmod.
  eexists. split; [apply segmentar_spec; assumption|].
  fold w s t. rewrite length_map, length_seq. unfold conteo_spec.
  apply range_len_no_multiplo; [assumption|lia|].
  intros Hz. apply Hmod.
  apply Nat2Z.inj. rewrite Nat2Z.inj_mod, Nat2Z.inj_sub by lia. exact Hz.
Qed.


(** ** The entry point *)



(** ** Segments of the segmenter in the engine and in the expander *)

(** The segmenter cuts both sub-matrices of a segment at one frame range.
    For segments whose two sub-matrices have the same width, a mismatch of
    either kind is a mismatch of both, and the entry of the pair is zero. *)
Lemma similitud_segmentos_alineados L segs i j s1 s2 :
  (i < j)%nat -> segs !! i = Some s1 -> segs !! j = Some s2 ->
  shape1 (mfcc_seg s1) = shape1 (chroma_seg s1) ->
  shape1 (mfcc_seg s2) = shape1 (chroma_seg s2) ->
  shape1 (mfcc_seg s1) <> shape1 (mfcc_seg s2)
  \/ shape1 (chroma_seg s1) <> shape1 (chroma_seg s2) ->
  mget (calcular_similitudes L segs) i j == 0.
Proof.
  intros Hij H1 H2 Ha1 Ha2 Hdist.
  rewrite (similitudes_par L segs i j s1 s2) by assumption.
  assert (Hm : shape1 (mfcc_seg s1) <> shape1 (mfcc_seg s2))
    by (destruct Hdist; congruence).
  assert (Hc : shape1 (chroma_seg s1) <> shape1 (chroma_seg s2))
    by (destruct Hdist; congruence).
  rewrite (valor_par_ok L s1 s2 0 0) by (by apply correlacion_distintas).
  reflexivity.
Qed.

(** The expander on the segments of the segmenter: the returned window
    lies inside the track, whatever the target. *)
Lemma expandir_segmentos_del_segmentador f sr ventana_s hop_s segs mejor
    objetivo :
  segmentar f sr ventana_s hop_s = Ok segs ->
  (indice mejor < length segs)%nat ->
  exists nuevo_inicio nuevo_fin,
    expandir_segmento mejor segs objetivo = Ok (nuevo_inicio, nuevo_fin)
    /\ 0 <= nuevo_inicio /\ nuevo_fin <= ultimo_fin_s segs.
Proof.
  intros Hsegs Hidx.
  destruct (lookup_lt_is_Some_2 segs (indice mejor) Hidx) as [seg Hseg].
  assert (Hd : dentro_de_pista segs seg).
  { eapply segmentar_dentro_de_pista; [eassumption|].
    eapply list_elem_of_lookup_2, Hseg. }
  unfold expandir_segmento, getitem, getitem_ultimo. rewrite Hseg.
  destruct (lookup_last_is_Some _ _ _ Hseg) as [ult Hult].
  rewrite Hult. cbn [bind]. destruct Hd as [Hini Hfin].
  rewrite (ultimo_fin_s_last _ _ Hult) in *.
  destruct (Qle_bool objetivo (fin_s seg - inicio_s seg)).
  { eexists _, _. split; [reflexivity|]. split; assumption. }
  destruct (Qle_bool _ (fin_s ult)) eqn:Hcabe; cbn [negb].
  - apply Qle_bool_iff in Hcabe.
    eexists _, _. split; [reflexivity|]. split; [apply py_max_0_nonneg|assumption].
  - eexists _, _. split; [reflexivity|]. split; [apply py_max_0_nonneg|lra].
Qed.

(** ** Concrete runs *)

Lemma C2_conteo_ventana_alineada_testigo :
  (0 < segundos_a_frames 2 22050)%nat
  /\ (segundos_a_frames 12 22050
      <= length (rms (caracteristicas_de 602)))%nat
  /\ ((length (rms (caracteristicas_de 602)) - segundos_a_frames 12 22050)
      mod segundos_a_frames 2 22050 = 0)%nat
  /\ conteo_spec 602 516 86 = 2%Z
  /\ exists segmentos,
       segmentar (caracteristicas_de 602) 22050 12 2 = Ok segmentos
       /\ length segmentos = 1%nat.
Proof.
  assert (H1 : (0 < segundos_a_frames 2 22050)%nat) by (vm_compute; lia).
  assert (H2 : (segundos_a_frames 12 22050
                <= length (rms (caracteristicas_de 602)))%nat)
    by (vm_compute; lia).
  assert (H3 : ((length (rms (caracteristicas_de 602))
                 - segundos_a_frames 12 22050)
                mod segundos_a_frames 2 22050 = 0)%nat)
    by (vm_compute; reflexivity).
  split; [exact H1|]. split; [exact H2|]. split; [exact H3|].
  split; [reflexivity|].
  destruct (C2_conteo_ventana_alineada (caracteristicas_de 602) 22050 12 2
              H1 H2 H3) as (segmentos & Hsegs & Hlen & _).
  exists segmentos. split; [exact Hsegs|].
  apply Nat2Z.inj. rewrite Hlen. vm_compute. reflexivity.
Defined.


Lemma C4_score_repeticion_testigo :
  trio_prueba !! 0%nat = Some (segmento_de 2 14 [[1; 2; 3]] [[1; 2; 4]])
  /\ repeticiones
       (puntuar trio_prueba (calcular_similitudes libs_prueba trio_prueba) 0
          (segmento_de 2 14 [[1; 2; 3]] [[1; 2; 4]]))
     = cuenta_similares (calcular_similitudes libs_prueba trio_prueba) 3 0
  /\ cuenta_otros_similares (calcular_similitudes libs_prueba trio_prueba) 3 0
     = 1%nat
  /\ 0 <= score_repeticion
            (puntuar trio_prueba (calcular_similitudes libs_prueba trio_prueba)
               0 (segmento_de 2 14 [[1; 2; 3]] [[1; 2; 4]])) <= 1.
Proof.
  assert (H1 : trio_prueba !! 0%nat
               = Some (segmento_de 2 14 [[1; 2; 3]] [[1; 2; 4]]))
    by reflexivity.
  destruct (C4_score_repeticion libs_prueba trio_prueba 0 _ H1)
    as (_ & _ & Hrep & _ & _ & Hcota).
  split; [exact H1|]. split; [exact Hrep|].
  split; [vm_compute; reflexivity|exact Hcota].
Defined.

Lemma C5_score_posicion_testigo :
  trio_prueba !! 1%nat = Some (segmento_de 45 57 [[3; 1; 2]] [[2; 1; 1]])
  /\ 0 < ultimo_fin_s trio_prueba
  /\ 45 == 0.5 * ultimo_fin_s trio_prueba
  /\ score_posicion
       (puntuar trio_prueba (calcular_similitudes libs_prueba trio_prueba) 1
          (segmento_de 45 57 [[3; 1; 2]] [[2; 1; 1]])) = 1.0.
Proof.
  assert (H1 : trio_prueba !! 1%nat
               = Some (segmento_de 45 57 [[3; 1; 2]] [[2; 1; 1]]))
    by reflexivity.
  assert (H2 : 0 < ultimo_fin_s trio_prueba) by (vm_compute; reflexivity).
  assert (H3 : 45 == 0.5 * ultimo_fin_s trio_prueba) by (vm_compute; reflexivity).
  destruct (C5_score_posicion trio_prueba
              (calcular_similitudes libs_prueba trio_prueba) 1 _ H1)
    as (_ & _ & _ & _ & Hej).
  destruct (Hej H2) as (Hmitad & _).
  split; [exact H1|]. split; [exact H2|]. split; [exact H3|].
  exact (Hmitad H3).
Defined.

Lemma C6_similitud_por_canal_testigo :
  (0 < 2)%nat
  /\ trio_prueba !! 0%nat = Some (segmento_de 2 14 [[1; 2; 3]] [[1; 2; 4]])
  /\ trio_prueba !! 2%nat = Some (segmento_de 78 90 [[1; 2; 3]] [[1; 2; 4]])
  /\ np_corrcoef libs_prueba [1; 2; 3] [1; 2; 3] = Ok (FNum 1)
  /\ np_corrcoef libs_prueba [1; 2; 4] [1; 2; 4] = Ok (FNum 1)
  /\ mget (calcular_similitudes libs_prueba trio_prueba) 0 2
     = 1 * 0.7 + 1 * 0.3.
Proof.
  assert (H0 : (0 < 2)%nat) by lia.
  assert (H1 : trio_prueba !! 0%nat
               = Some (segmento_de 2 14 [[1; 2; 3]] [[1; 2; 4]]))
    by reflexivity.
  assert (H2 : trio_prueba !! 2%nat
               = Some (segmento_de 78 90 [[1; 2; 3]] [[1; 2; 4]]))
    by reflexivity.
  assert (H3 : np_corrcoef libs_prueba [1; 2; 3] [1; 2; 3] = Ok (FNum 1))
    by (vm_compute; reflexivity).
  assert (H4 : np_corrcoef libs_prueba [1; 2; 4] [1; 2; 4] = Ok (FNum 1))
    by (vm_compute; reflexivity).
  destruct (C6_similitud_por_canal libs_prueba trio_prueba 0 2 _ _ H0 H1 H2)
    as (Hformula & _).
  repeat (split; [assumption|]).
  exact (Hformula (FNum 1) (FNum 1) eq_refl eq_refl H3 H4).
Defined.

Lemma C6_contraejemplo_ancho :
  exists seg1 seg2,
    par_desigual !! 0%nat = Some seg1
    /\ par_desigual !! 1%nat = Some seg2
    /\ shape1 (mfcc_seg seg1) <> shape1 (mfcc_seg seg2)
    /\ ~ mget (calcular_similitudes libs_prueba par_desigual) 0 1 == 0.
Proof.
  exists (segmento_de 0 12 [[1; 2]] [[1; 2]]),
         (segmento_de 2 14 [[1; 2; 3]] [[1; 2]]).
  split; [reflexivity|]. split; [reflexivity|].
  split; [vm_compute; lia|].
  vm_compute. discriminate.
Qed.

Lemma C8_expandir_identidad_testigo :
  trio_prueba !! indice (candidato 1)
  = Some (segmento_de 45 57 [[3; 1; 2]] [[2; 1; 1]])
  /\ 10 <= 57 - 45
  /\ expandir_segmento (candidato 1) trio_prueba 10 = Ok (45, 57).
Proof.
  assert (H1 : trio_prueba !! indice (candidato 1)
               = Some (segmento_de 45 57 [[3; 1; 2]] [[2; 1; 1]]))
    by reflexivity.
  assert (H2 : 10 <= 57 - 45) by (vm_compute; discriminate).
  split; [exact H1|]. split; [exact H2|].
  exact (C8_expandir_identidad (candidato 1) trio_prueba 10 _ H1 H2).
Defined.

Lemma C9_expandir_dentro_de_pista_testigo :
  trio_prueba !! indice (candidato 2)
  = Some (segmento_de 78 90 [[1; 2; 3]] [[1; 2; 4]])
  /\ (30 <= 90 - 78 ->
      dentro_de_pista trio_prueba (segmento_de 78 90 [[1; 2; 3]] [[1; 2; 4]]))
  /\ exists nuevo_inicio nuevo_fin,
       expandir_segmento (candidato 2) trio_prueba 30
       = Ok (nuevo_inicio, nuevo_fin)
       /\ 0 <= nuevo_inicio /\ nuevo_fin <= 90.
Proof.
  assert (H1 : trio_prueba !! indice (candidato 2)
               = Some (segmento_de 78 90 [[1; 2; 3]] [[1; 2; 4]]))
    by reflexivity.
  assert (H2 : 30 <= 90 - 78 ->
               dentro_de_pista trio_prueba
                 (segmento_de 78 90 [[1; 2; 3]] [[1; 2; 4]]))
    by (intros _; split; vm_compute; discriminate).
  destruct (C9_expandir_dentro_de_pista (candidato 2) trio_prueba 30 _ H1 H2)
    as (a & b & Hexp & Ha & Hb & _).
  split; [exact H1|]. split; [exact H2|].
  exists a, b. split; [exact Hexp|]. split; [exact Ha|exact Hb].
Defined.

Lemma C10_expandir_inicio_recortado_testigo :
  trio_prueba !! indice (candidato 0)
  = Some (segmento_de 2 14 [[1; 2; 3]] [[1; 2; 4]])
  /\ 14 - 2 < 30
  /\ 2 < (30 - (14 - 2)) / 2
  /\ 14 + (30 - (14 - 2)) / 2 <= ultimo_fin_s trio_prueba
  /\ expandir_segmento (candidato 0) trio_prueba 30
     = Ok (0, 14 + (30 - (14 - 2)) / 2)
  /\ 14 + (30 - (14 - 2)) / 2 - 0 < 30.
Proof.
  assert (H1 : trio_prueba !! indice (candidato 0)
               = Some (segmento_de 2 14 [[1; 2; 3]] [[1; 2; 4]]))
    by reflexivity.
  assert (H2 : 14 - 2 < 30) by (vm_compute; reflexivity).
  assert (H3 : 2 < (30 - (14 - 2)) / 2) by (vm_compute; reflexivity).
  assert (H4 : 14 + (30 - (14 - 2)) / 2 <= ultimo_fin_s trio_prueba)
    by (vm_compute; discriminate).
  split; [exact H1|]. split; [exact H2|]. split; [exact H3|]. split; [exact H4|].
  exact (C10_expandir_inicio_recortado (candidato 0) trio_prueba 30 _
           H1 H2 H3 H4).
Defined.

(** On streams that are not frame-aligned the segmenter itself (here with
    one frame per second, a window of two frames and a stride of one)
    yields two windows whose timbral widths agree and whose harmonic widths
    differ; their similarity is 0.7 times the timbral correlation. *)
Example similitud_streams_desalineados :
  exists seg1 seg2,
    segmentar streams_desalineados 512 2 1 = Ok [seg1; seg2]
    /\ shape1 (mfcc_seg seg1) = shape1 (mfcc_seg seg2)
    /\ shape1 (chroma_seg seg1) <> shape1 (chroma_seg seg2)
    /\ mget (calcular_similitudes libs_prueba [seg1; seg2]) 0 1 == 0.7.
Proof.
  eexists _, _. split; [vm_compute; reflexivity|].
  split; [reflexivity|]. split; [vm_compute; lia|].
  vm_compute. reflexivity.
Qed.

(** The two expansion scenarios of the specification: a 12 s window at
    [40 s, 52 s) of a 90 s track grows to [31 s, 61 s); an 8 s window at
    [82 s, 90 s) is clamped to [60 s, 90 s]. *)
Example expandir_centrado :
  expandir_segmento (candidato 0)
    [segmento_de 40 52 [] []; segmento_de 78 90 [] []] 30
  = Ok (62 # 2, 122 # 2).
Proof. vm_compute. reflexivity. Qed.

Example expandir_final_de_pista :
  expandir_segmento (candidato 1)
    [segmento_de 40 52 [] []; segmento_de 82 90 [] []] 30
  = Ok (60, 90).
Proof. vm_compute. reflexivity. Qed.

(** * Further properties *)

(** ** More on the segmenter *)

Lemma range_len_cota (T : Z) (s k : nat) :
  (0 < s)%nat -> (k < range_len T s)%nat -> (Z.of_nat (k * s) < T)%Z.
Proof.
  intros Hs Hk. unfold range_len in Hk.
  pose proof (Z.mul_div_le (T + Z.of_nat s - 1) (Z.of_nat s) ltac:(lia)) as Hle.
  assert (Hk' : (Z.of_nat k + 1 <= (T + Z.of_nat s - 1) / Z.of_nat s)%Z) by lia.
  nia.
Qed.

Lemma segmentar_lookup f sr ventana_s hop_s segs k seg :
  segmentar f sr ventana_s hop_s = Ok segs ->
  segs !! k = Some seg ->
  (0 < segundos_a_frames hop_s sr)%nat
  /\ seg = construir_segmento f sr (segundos_a_frames ventana_s sr)
             (k * segundos_a_frames hop_s sr)
  /\ (k * segundos_a_frames hop_s sr + segundos_a_frames ventana_s sr
      < length (rms f))%nat.
Proof.
  intros Hsegs Hk.
  destruct (segundos_a_frames hop_s sr) as [|s] eqn:Hs.
  { unfold segmentar in Hsegs. rewrite Hs in Hsegs. discriminate. }
  rewrite segmentar_spec in Hsegs by lia. rewrite Hs in Hsegs.
  injection Hsegs as <-.
  apply list_lookup_fmap_Some in Hk as (k' & -> & Hk').
  apply lookup_seq in Hk' as [-> Hlt]. simpl in Hlt |- *.
  split; [lia|]. split; [reflexivity|].
  apply range_len_cota in Hlt; lia.
Qed.

Lemma length_slice {A} (a b : nat) (l : list A) :
  (b <= length l)%nat -> length (slice a b l) = (b - a)%nat.
Proof. intros Hb. unfold slice. rewrite length_take, length_drop. lia. Qed.

(** X1.  Every segment returned by the segmenter is a complete window: the
    segment at position [k] starts at frame [k * hop_frames], ends
    [ventana_frames] frames later, its end frame is strictly below the
    number of energy frames, and its slice of the energy stream holds
    exactly [ventana_frames] values. *)
Theorem segmentar_ventanas_completas (f : caracteristicas) (sr : positive)
    (ventana_s hop_s : nat) (segmentos : list segmento) (k : nat)
    (seg : segmento) :
  segmentar f sr ventana_s hop_s = Ok segmentos ->
  segmentos !! k = Some seg ->
  let ventana_frames := segundos_a_frames ventana_s sr in
  let hop_frames := segundos_a_frames hop_s sr in
  inicio_frame seg = (k * hop_frames)%nat
  /\ fin_frame seg = (inicio_frame seg + ventana_frames)%nat
  /\ (fin_frame seg < length (rms f))%nat
  /\ length (slice (inicio_frame seg) (fin_frame seg) (rms f)) = ventana_frames.
Proof.
  intros Hsegs Hk w s.
  destruct (segmentar_lookup _ _ _ _ _ _ _ Hsegs Hk) as (Hs & -> & Hlt).
  cbn [inicio_frame fin_frame construir_segmento]. fold w s in Hlt |- *.
  repeat split; [assumption|].
  rewrite length_slice by lia. lia.
Qed.

(** X2.  The segment loop raises exactly when the stride is shorter than
    one frame, that is when [hop_s * sr < 512] and [hop_frames] is 0; the
    exception is then the [ValueError] of [range] for a zero step, whatever
    the streams and the window are. *)
Theorem segmentar_paso_cero (f : caracteristicas) (sr : positive)
    (ventana_s hop_s : nat) :
  ((exists e, segmentar f sr ventana_s hop_s = Raise e)
   <-> (hop_s * Pos.to_nat sr < 512)%nat)
  /\ ((hop_s * Pos.to_nat sr < 512)%nat ->
      segmentar f sr ventana_s hop_s
      = Raise (ValueError "range() arg 3 must not be zero")).
Proof.
  assert (Hcero : segundos_a_frames hop_s sr = 0%nat
                  <-> (hop_s * Pos.to_nat sr < 512)%nat).
  { unfold segundos_a_frames, hop_length.
    rewrite Nat.div_small_iff by lia. reflexivity. }
  split.
  - split.
    + intros [e He]. apply Hcero.
      destruct (segundos_a_frames hop_s sr) as [|s] eqn:Hs; [reflexivity|].
      rewrite segmentar_spec in He by lia. discriminate.
    + intros Hlt. apply Hcero in Hlt. unfold segmentar. rewrite Hlt.
      eexists. reflexivity.
  - intros Hlt. apply Hcero in Hlt. unfold segmentar. rewrite Hlt. reflexivity.
Qed.




(** At 22050 Hz the 12 s window lasts 516 frames, a little less than
    12 s. *)
Example duracion_ventana_22050 :
  frames_to_time (segundos_a_frames 12 22050) 22050 == 132096 # 11025
  /\ frames_to_time (segundos_a_frames 12 22050) 22050 < 12.
Proof. split; vm_compute; reflexivity. Qed.

Lemma shape1_slice_cols a b n (m : list (list Q)) :
  m <> [] -> Forall (fun fila => length fila = n) m -> (b <= n)%nat ->
  shape1 (slice_cols a b m) = (b - a)%nat.
Proof.
  intros Hm Hall Hb. destruct m as [|fila m]; [congruence|].
  apply Forall_cons in Hall as [Hfila _]. simpl.
  apply length_slice. lia.
Qed.

Lemma segmentar_anchos f sr ventana_s hop_s segs k seg :
  streams_alineados f ->
  segmentar f sr ventana_s hop_s = Ok segs ->
  segs !! k = Some seg ->
  shape1 (mfcc_seg seg) = segundos_a_frames ventana_s sr
  /\ shape1 (chroma_seg seg) = segundos_a_frames ventana_s sr.
Proof.
  intros (Hm & Hc & Hmf & Hcf) Hsegs Hk.
  destruct (segmentar_lookup _ _ _ _ _ _ _ Hsegs Hk) as (Hs & -> & Hlt).
  cbn [mfcc_seg chroma_seg construir_segmento].
  rewrite !(shape1_slice_cols _ _ (length (rms f))); try assumption; lia.
Qed.

(** X4.  On frame-aligned streams the width guards of the similarity engine
    never fire for the segments of the segmenter: two segments have equal
    timbral widths and equal harmonic widths, and when [np.corrcoef]
    returns for both kinds the entry [(i, j)], [i < j], is 0.7 times the
    timbral correlation plus 0.3 times the harmonic one, a not-a-number
    correlation counting as 0. *)
Theorem similitud_streams_alineados (L : Librerias) (f : caracteristicas)
    (sr : positive) (ventana_s hop_s : nat) (segmentos : list segmento)
    (i j : nat) (seg1 seg2 : segmento) (cm cc : fnum) :
  streams_alineados f ->
  segmentar f sr ventana_s hop_s = Ok segmentos ->
  (i < j)%nat ->
  segmentos !! i = Some seg1 ->
  segmentos !! j = Some seg2 ->
  np_corrcoef L (flatten (mfcc_seg seg1)) (flatten (mfcc_seg seg2)) = Ok cm ->
  np_corrcoef L (flatten (chroma_seg seg1)) (flatten (chroma_seg seg2)) = Ok cc ->
  shape1 (mfcc_seg seg1) = shape1 (mfcc_seg seg2)
  /\ shape1 (chroma_seg seg1) = shape1 (chroma_seg seg2)
  /\ mget (calcular_similitudes L segmentos) i j
     = nan_a_cero cm * 0.7 + nan_a_cero cc * 0.3.
Proof.
  intros Hal Hsegs Hij H1 H2 Hcm Hcc.
  destruct (segmentar_anchos _ _ _ _ _ _ _ Hal Hsegs H1) as [Hm1 Hc1].
  destruct (segmentar_anchos _ _ _ _ _ _ _ Hal Hsegs H2) as [Hm2 Hc2].
  assert (Hm : shape1 (mfcc_seg seg1) = shape1 (mfcc_seg seg2)) by congruence.
  assert (Hc : shape1 (chroma_seg seg1) = shape1 (chroma_seg seg2)) by congruence.
  split; [exact Hm|]. split; [exact Hc|].
  rewrite (similitudes_par L segmentos i j seg1 seg2) by assumption.
  apply valor_par_ok; by apply correlacion_iguales.
Qed.

(** ** Range of the similarity entries *)

Lemma correlacion_acotada L a b c :
  corrcoef_acotado L -> correlacion L a b = Ok c -> -1 <= c <= 1.
Proof.
  intros HL. unfold correlacion.
  destruct (shape1 a =? shape1 b)%nat.
  - destruct (np_corrcoef L (flatten a) (flatten b)) as [[q|]|e] eqn:Hx;
      simpl; intros Hc; inversion Hc; subst; simpl.
    + eapply HL, Hx.
    + lra.
  - intros Hc. inversion Hc. lra.
Qed.

Lemma valor_par_acotado L s1 s2 :
  corrcoef_acotado L -> -1 <= valor_par L s1 s2 <= 1.
Proof.
  intros HL. unfold valor_par, similitud_par.
  destruct (correlacion L (mfcc_seg s1) (mfcc_seg s2)) as [cm|e] eqn:Hm;
    simpl; [|lra].
  destruct (correlacion L (chroma_seg s1) (chroma_seg s2)) as [cc|e] eqn:Hc;
    simpl; [|lra].
  apply (correlacion_acotada L _ _ _ HL) in Hm, Hc. lra.
Qed.

(** X5.  When the correlations returned by [np.corrcoef] lie in [-1, 1],
    every entry of the similarity matrix, at any row and column, lies in
    [-1, 1]. *)
Theorem similitudes_acotadas (L : Librerias) (segmentos : list segmento)
    (i j : nat) :
  corrcoef_acotado L ->
  -1 <= mget (calcular_similitudes L segmentos) i j <= 1.
Proof.
  intros HL.
  assert (Hv : forall a b, -1 <= valor L segmentos a b <= 1).
  { intros a b. unfold valor.
    destruct (segmentos !! a); [|lra]. destruct (segmentos !! b); [|lra].
    by apply valor_par_acotado. }
  destruct (decide (i < j < length segmentos)%nat) as [Hij|Hij].
  { destruct (similitudes_entrada L segmentos i j Hij) as [-> _]. apply Hv. }
  destruct (decide (j < i < length segmentos)%nat) as [Hji|Hji].
  { destruct (similitudes_entrada L segmentos j i Hji) as [_ ->]. apply Hv. }
  rewrite similitudes_no_escrita by assumption. lra.
Qed.

(** The matrix has one row per segment and one column per segment. *)
Lemma length_mset a i j v : length (mset a i j v) = length a.
Proof. unfold mset. apply length_alter. Qed.

Lemma length_paso_par L segs a p : length (paso_par L segs a p) = length a.
Proof.
  unfold paso_par, paso_similitud.
  destruct (segs !! p.1); [|reflexivity]. destruct (segs !! p.2); [|reflexivity].
  by rewrite !length_mset.
Qed.

(** X6.  The similarity matrix is square of the size of the segment list:
    it has one row per segment and every row has one entry per segment,
    whatever [np.corrcoef] returns or raises. *)
Theorem similitudes_forma (L : Librerias) (segmentos : list segmento) :
  length (calcular_similitudes L segmentos) = length segmentos
  /\ Forall (fun fila => length fila = length segmentos)
            (calcular_similitudes L segmentos).
Proof.
  assert (Hlen : length (calcular_similitudes L segmentos) = length segmentos).
  { rewrite calcular_similitudes_pares.
    generalize (pares (length segmentos)) as ps.
    assert (H0 : length (np_zeros (length segmentos) (length segmentos))
                 = length segmentos) by apply length_replicate.
    revert H0. generalize (np_zeros (length segmentos) (length segmentos)) as a.
    intros a Ha ps. revert a Ha.
    induction ps as [|p ps IH]; intros a Ha; simpl; [exact Ha|].
    apply IH. by rewrite length_paso_par. }
  split; [exact Hlen|].
  apply Forall_lookup. intros i fila_i Hi.
  assert (Hlt : (i < length segmentos)%nat).
  { rewrite <- Hlen. eapply lookup_lt_Some, Hi. }
  pose proof (similitudes_cuadrada L segmentos i Hlt) as Hc.
  unfold fila in Hc. rewrite Hi in Hc. exact Hc.
Qed.

(** ** Order of the ranked candidates *)

Lemma precede_le x y : precede x y -> score_total y <= score_total x.
Proof. intros [H|[H _]]; lra. Qed.

Lemma insertar_ordenada x l :
  StronglySorted precede l -> Forall (antes x) l ->
  StronglySorted precede (insertar x l).
Proof.
  induction l as [|y l IH]; intros Hs Hx; simpl.
  { constructor; constructor. }
  apply StronglySorted_inv in Hs as [Hs Hy].
  apply Forall_cons in Hx as [Hxy Hx].
  destruct (Qle_bool (score_total y) (score_total x)) eqn:Hle.
  - apply Qle_bool_iff in Hle.
    constructor; [constructor; assumption|].
    constructor.
    + destruct (Qlt_le_dec (score_total y) (score_total x)) as [Hlt|Hge];
        [left; assumption|right; split; [lra|exact Hxy]].
    + rewrite Forall_forall in Hy, Hx |- *. intros z Hz.
      pose proof (precede_le _ _ (Hy z Hz)) as Hzy.
      destruct (Qlt_le_dec (score_total z) (score_total x)) as [Hlt|Hge];
        [left; assumption|right; split; [lra|exact (Hx z Hz)]].
  - apply not_true_iff_false in Hle. rewrite Qle_bool_iff in Hle.
    constructor; [apply IH; assumption|].
    rewrite (insertar_perm x l). constructor; [left; lra|exact Hy].
Qed.

Lemma sorted_desc_ordenada l :
  StronglySorted antes l -> StronglySorted precede (sorted_desc l).
Proof.
  induction l as [|x l IH]; intros Hs; simpl; [constructor|].
  apply StronglySorted_inv in Hs as [Hs Hx].
  apply insertar_ordenada; [apply IH, Hs|].
  by rewrite sorted_desc_perm.
Qed.

Lemma indice_puntuar segs sims i seg : indice (puntuar segs sims i seg) = i.
Proof. reflexivity. Qed.

Lemma imap_puntuar_antes segs sims (l : list segmento) k :
  StronglySorted antes (imap (fun i => puntuar segs sims (k + i)) l)
  /\ Forall (fun r => (k <= indice r)%nat)
            (imap (fun i => puntuar segs sims (k + i)) l).
Proof.
  revert k. induction l as [|x l IH]; intros k; simpl.
  { split; constructor. }
  destruct (IH (S k)) as [Hs Hf].
  assert (Heq : imap ((fun i => puntuar segs sims (k + i)) ∘ S) l
                = imap (fun i => puntuar segs sims (S k + i)) l).
  { apply imap_ext. intros i y _. simpl. f_equal. lia. }
  rewrite Heq. split.
  - constructor; [exact Hs|].
    eapply Forall_impl; [exact Hf|]. intros r Hr. unfold antes.
    rewrite indice_puntuar. cbv beta in Hr. lia.
  - constructor; [rewrite indice_puntuar; lia|].
    eapply Forall_impl; [exact Hf|]. intros r Hr. cbv beta in Hr. lia.
Qed.

Lemma StronglySorted_lookup {A} (R : A -> A -> Prop) (l : list A) a b x y :
  StronglySorted R l -> (a < b)%nat ->
  l !! a = Some x -> l !! b = Some y -> R x y.
Proof.
  intros Hs. revert a b. induction Hs as [|z l Hs IH Hz]; intros a b Hab Ha Hb.
  { by rewrite lookup_nil in Ha. }
  destruct b as [|b]; [lia|]. simpl in Hb.
  destruct a as [|a]; simpl in Ha.
  - injection Ha as ->. rewrite Forall_forall in Hz. apply Hz.
    eapply list_elem_of_lookup_2, Hb.
  - eapply (IH a b); [lia|eassumption|eassumption].
Qed.

Lemma length_calcular_score_coro segs sims :
  length (calcular_score_coro segs sims) = length segs.
Proof.
  unfold calcular_score_coro. rewrite sorted_desc_perm. apply length_imap.
Qed.

Lemma calcular_score_coro_precede segs sims :
  StronglySorted precede (calcular_score_coro segs sims).
Proof.
  apply sorted_desc_ordenada. apply (imap_puntuar_antes segs sims segs 0).
Qed.

(** X7.  When no normalisation divides by zero, [calcular_score_coro]
    returns one record per segment, ordered by decreasing total score;
    records of equal total score come in the order of their segments
    (the sort is stable). *)
Theorem calcular_score_coro_ordenado (segmentos : list segmento)
    (similitudes : matriz) :
  divisores_no_nulos segmentos ->
  let scores := calcular_score_coro segmentos similitudes in
  length scores = length segmentos
  /\ (forall a b ra rb, (a < b)%nat ->
        scores !! a = Some ra -> scores !! b = Some rb ->
        score_total rb <= score_total ra
        /\ (score_total rb == score_total ra -> (indice ra < indice rb)%nat)).
Proof.
  intros _ scores. split; [apply length_calcular_score_coro|].
  intros a b ra rb Hab Ha Hb.
  pose proof (StronglySorted_lookup _ _ _ _ _ _
                (calcular_score_coro_precede segmentos similitudes) Hab Ha Hb)
    as Hp.
  split; [by apply precede_le|].
  intros Heq. destruct Hp as [Hlt|[_ Hidx]]; [lra|exact Hidx].
Qed.

(** X8.  When no normalisation divides by zero, the first record of
    [calcular_score_coro], the one the pipeline selects, has the greatest
    total score of all segments, and no earlier segment reaches that
    score. *)
Theorem mejor_candidato_maximo (segmentos : list segmento)
    (similitudes : matriz) (mejor : puntaje) (i : nat) (seg : segmento) :
  divisores_no_nulos segmentos ->
  calcular_score_coro segmentos similitudes !! 0%nat = Some mejor ->
  segmentos !! i = Some seg ->
  let r := puntuar segmentos similitudes i seg in
  score_total r <= score_total mejor
  /\ (score_total r == score_total mejor -> (indice mejor <= i)%nat).
Proof.
  intros _ Hmejor Hseg r.
  assert (Hin : r ∈ calcular_score_coro segmentos similitudes)
    by (apply elem_of_calcular_score_coro; eauto).
  apply list_elem_of_lookup in Hin as [b Hb].
  destruct b as [|b].
  - rewrite Hmejor in Hb. injection Hb as ->. split; [lra|]. intros _.
    unfold r. rewrite indice_puntuar. lia.
  - pose proof (StronglySorted_lookup _ _ _ _ _ _
                  (calcular_score_coro_precede segmentos similitudes)
                  (Nat.lt_0_succ b) Hmejor Hb) as Hp.
    split; [by apply precede_le|].
    intros Heq. destruct Hp as [Hlt|[_ Hidx]]; [lra|].
    unfold r in Hidx. rewrite indice_puntuar in Hidx. lia.
Qed.

(** ** Range of the scores *)

Lemma py_max_cotas a b : a <= py_max a b /\ b <= py_max a b.
Proof.
  unfold py_max. destruct (Qle_bool b a) eqn:H.
  - apply Qle_bool_iff in H. lra.
  - apply not_true_iff_false in H. rewrite Qle_bool_iff in H. lra.
Qed.

Lemma fold_py_max_cota l : forall acc,
  acc <= fold_left py_max l acc
  /\ Forall (fun x => x <= fold_left py_max l acc) l.
Proof.
  induction l as [|y l IH]; intros acc; simpl.
  { split; [lra|constructor]. }
  destruct (IH (py_max acc y)) as [Hacc Hl].
  destruct (py_max_cotas acc y) as [Ha Hy].
  split; [lra|]. constructor; [lra|exact Hl].
Qed.

Lemma py_max_list_cota l x : x ∈ l -> x <= py_max_list l.
Proof.
  intros Hin. destruct l as [|y l]; [by apply elem_of_nil in Hin|].
  simpl. destruct (fold_py_max_cota l y) as [Hy Hl].
  apply elem_of_cons in Hin as [->|Hin]; [exact Hy|].
  rewrite Forall_forall in Hl. by apply Hl.
Qed.

Lemma cociente_normalizado x m : 0 <= x -> x <= m -> 0 < m -> 0 <= x / m <= 1.
Proof.
  intros Hx Hxm Hm. split.
  - apply Qle_shift_div_l; [assumption|]. lra.
  - apply Qle_shift_div_r; [assumption|]. lra.
Qed.

Lemma puntaje_posicion_valores p :
  puntaje_posicion p = 1.0 \/ puntaje_posicion p = 0.7
  \/ puntaje_posicion p = 0.3.
Proof.
  unfold puntaje_posicion.
  destruct (Qle_bool 0.25 p && Qle_bool p 0.75); [by left|].
  destruct (Qle_bool 0.15 p && Qle_bool p 0.85); [right; by left|right; by right].
Qed.

(** X9.  When the mean energies, energy variances and tonal stabilities of
    the segments are not negative and their maxima are positive, every
    record computed from the similarity matrix of [calcular_similitudes]
    has a normalised energy in [0, 1], a position score among 1.0, 0.7 and
    0.3, and a total score in [0, 1]. *)
Theorem score_total_acotado (L : Librerias) (segmentos : list segmento)
    (r : puntaje) :
  normalizable segmentos ->
  r ∈ calcular_score_coro segmentos (calcular_similitudes L segmentos) ->
  0 <= energia_normalizada r <= 1
  /\ (score_posicion r = 1.0 \/ score_posicion r = 0.7
      \/ score_posicion r = 0.3)
  /\ 0 <= score_total r <= 1.
Proof.
  intros (Hall & Hme & Hmv & Hms) Hr.
  apply elem_of_calcular_score_coro in Hr as (i & seg & Hseg & ->).
  assert (Hi : (i < length segmentos)%nat) by (eapply lookup_lt_Some, Hseg).
  assert (Hin : seg ∈ segmentos) by (eapply list_elem_of_lookup_2, Hseg).
  rewrite Forall_forall in Hall. destruct (Hall seg Hin) as (He & Hv & Hs).
  assert (Hrep : 0 <= inject_Z (Z.of_nat
                        (contar_repeticiones (calcular_similitudes L segmentos) i))
                      / inject_Z (Z.of_nat (length segmentos)) <= 1).
  { apply cociente_en_unidad; [|lia].
    rewrite (contar_repeticiones_cuenta _ (length segmentos))
      by (by apply similitudes_cuadrada).
    rewrite cuenta_similares_otros by apply similitudes_diagonal.
    pose proof (cuenta_otros_lt (calcular_similitudes L segmentos) _ _ Hi). lia. }
  assert (Hen : 0 <= energia_promedio seg
                     / py_max_list (map energia_promedio segmentos) <= 1).
  { apply cociente_normalizado; [assumption| |assumption].
    apply py_max_list_cota, list_elem_of_fmap_2, Hin. }
  assert (Hvn : 0 <= energia_varianza seg
                     / py_max_list (map energia_varianza segmentos) <= 1).
  { apply cociente_normalizado; [assumption| |assumption].
    apply py_max_list_cota, list_elem_of_fmap_2, Hin. }
  assert (Hsn : 0 <= estabilidad_tonal seg
                     / py_max_list (map estabilidad_tonal segmentos) <= 1).
  { apply cociente_normalizado; [assumption| |assumption].
    apply py_max_list_cota, list_elem_of_fmap_2, Hin. }
  pose proof (puntaje_posicion_valores
                (inicio_s seg / ultimo_fin_s segmentos)) as Hpos.
  unfold puntuar. cbn [energia_normalizada score_posicion score_total].
  split; [exact Hen|]. split; [exact Hpos|].
  destruct Hpos as [ -> | [ -> | -> ] ]; lra.
Qed.

(** ** Statistics of the windows *)

Lemma Qsum_nonneg l : Forall (fun x => 0 <= x) l -> 0 <= Qsum l.
Proof.
  induction 1 as [|x l Hx _ IH]; simpl; [lra|]. lra.
Qed.

Lemma np_mean_nonneg l : Forall (fun x => 0 <= x) l -> 0 <= np_mean l.
Proof.
  intros Hl. unfold np_mean.
  destruct l as [|x l]; [simpl; vm_compute; discriminate|].
  apply Qle_shift_div_l.
  - change 0 with (inject_Z 0). rewrite <- Zlt_Qlt. simpl length. lia.
  - pose proof (Qsum_nonneg _ Hl). lra.
Qed.

Lemma np_var_nonneg l : 0 <= np_var l.
Proof.
  unfold np_var. apply np_mean_nonneg.
  apply Forall_forall. intros y Hy.
  apply list_elem_of_fmap in Hy as (x & -> & _).
  unfold Qle, Qmult. cbn [Qnum Qden].
  rewrite Z.mul_0_l, Z.mul_1_r. apply Z.square_nonneg.
Qed.

(** X10.  On frame-aligned streams and with a window of at least one frame,
    every segment of the segmenter has a non-empty harmonic sub-matrix, an
    energy variance that is not negative and a tonal stability in (0, 1];
    its mean energy is not negative when no energy frame is. *)
Theorem segmentar_estadisticas (f : caracteristicas) (sr : positive)
    (ventana_s hop_s : nat) (segmentos : list segmento) (seg : segmento) :
  streams_alineados f ->
  (0 < segundos_a_frames ventana_s sr)%nat ->
  segmentar f sr ventana_s hop_s = Ok segmentos ->
  seg ∈ segmentos ->
  flatten (chroma_seg seg) <> []
  /\ 0 <= energia_varianza seg
  /\ 0 < estabilidad_tonal seg <= 1
  /\ (Forall (fun x => 0 <= x) (rms f) -> 0 <= energia_promedio seg).
Proof.
  intros (_ & Hc & _ & Hcf) Hw Hsegs Hin.
  apply list_elem_of_lookup in Hin as [k Hk].
  destruct (segmentar_lookup _ _ _ _ _ _ _ Hsegs Hk) as (_ & -> & Hlt).
  cbn [energia_varianza estabilidad_tonal energia_promedio chroma_seg
       construir_segmento].
  split.
  { destruct (chroma f) as [|fila0 resto]; [congruence|].
    apply Forall_cons in Hcf as [Hfila _].
    intros Hvacio. apply (f_equal length) in Hvacio.
    unfold flatten, slice_cols in Hvacio. simpl in Hvacio.
    rewrite length_app, length_slice in Hvacio by lia. simpl in Hvacio. lia. }
  split; [apply np_var_nonneg|]. split.
  - pose proof (np_var_nonneg
                  (flatten (slice_cols (k * segundos_a_frames hop_s sr)
                     (k * segundos_a_frames hop_s sr
                      + segundos_a_frames ventana_s sr) (chroma f)))) as Hv.
    split.
    + apply Qlt_shift_div_l; lra.
    + apply Qle_shift_div_r; lra.
  - intros Hrms. apply np_mean_nonneg. unfold slice.
    apply Forall_take, Forall_drop, Hrms.
Qed.

(** ** More on the expander *)

(** The result of the expansion branch, in terms of the half shortfall
    [mitad] and the track duration [total]. *)
Lemma expandir_rama_expansion mejor segs objetivo seg ult :
  segs !! indice mejor = Some seg ->
  last segs = Some ult ->
  fin_s seg - inicio_s seg < objetivo ->
  forall mitad, 2 * mitad == objetivo - (fin_s seg - inicio_s seg) ->
  exists a b,
    expandir_segmento mejor segs objetivo = Ok (a, b)
    /\ ((fin_s seg + mitad <= fin_s ult
         /\ b == fin_s seg + mitad
         /\ ((inicio_s seg - mitad <= 0 /\ a = 0)
             \/ (0 < inicio_s seg - mitad /\ a == inicio_s seg - mitad)))
        \/ (fin_s ult < fin_s seg + mitad
            /\ b = fin_s ult
            /\ ((fin_s ult - objetivo <= 0 /\ a = 0)
                \/ (0 < fin_s ult - objetivo /\ a = fin_s ult - objetivo)))).
Proof.
  intros Hseg Hult Hcorto mitad Hmitad.
  unfold expandir_segmento, getitem, getitem_ultimo. rewrite Hseg, Hult.
  cbn [bind].
  assert (Hm : (objetivo - (fin_s seg - inicio_s seg)) / 2 == mitad)
    by (rewrite <- Hmitad; field).
  destruct (Qle_bool objetivo (fin_s seg - inicio_s seg)) eqn:Hlargo.
  { apply Qle_bool_iff in Hlargo. lra. }
  destruct (Qle_bool (fin_s seg + (objetivo - (fin_s seg - inicio_s seg)) / 2)
              (fin_s ult)) eqn:Hcabe; cbn [negb].
  - apply Qle_bool_iff in Hcabe. eexists _, _. split; [reflexivity|].
    left. split; [lra|]. split; [lra|].
    destruct (Qlt_le_dec 0 (inicio_s seg - mitad)) as [Hp|Hn].
    + right. split; [assumption|]. rewrite py_max_0_pos by lra. lra.
    + left. split; [assumption|]. apply py_max_0_nonpos. lra.
  - apply not_true_iff_false in Hcabe. rewrite Qle_bool_iff in Hcabe.
    eexists _, _. split; [reflexivity|].
    right. split; [lra|]. split; [reflexivity|].
    destruct (Qlt_le_dec 0 (fin_s ult - objetivo)) as [Hp|Hn].
    + right. split; [assumption|]. by apply py_max_0_pos.
    + left. split; [assumption|]. by apply py_max_0_nonpos.
Qed.


(** X12.  When the winning segment is shorter than the target and the
    widened end passes the end of the track, the expander returns the
    window that ends at the end of the track: it starts the target
    duration earlier when the track is longer than the target, and at 0
    when the track is not longer than the target. *)
Theorem expandir_final_recortado (mejor : puntaje) (segmentos : list segmento)
    (duracion_objetivo : Q) (seg : segmento) :
  segmentos !! indice mejor = Some seg ->
  let mitad := (duracion_objetivo - (fin_s seg - inicio_s seg)) / 2 in
  let duracion_total := ultimo_fin_s segmentos in
  fin_s seg - inicio_s seg < duracion_objetivo ->
  duracion_total < fin_s seg + mitad ->
  (duracion_objetivo < duracion_total ->
   expandir_segmento mejor segmentos duracion_objetivo
   = Ok (duracion_total - duracion_objetivo, duracion_total)
   /\ duracion_total - (duracion_total - duracion_objetivo)
      == duracion_objetivo)
  /\ (duracion_total <= duracion_objetivo ->
      expandir_segmento mejor segmentos duracion_objetivo
      = Ok (0, duracion_total)).
Proof.
  intros Hseg mitad duracion_total Hcorto Hsale.
  destruct (lookup_last_is_Some _ _ _ Hseg) as [ult Hult].
  subst duracion_total. rewrite (ultimo_fin_s_last _ _ Hult) in *.
  assert (Hmitad : 2 * mitad == duracion_objetivo - (fin_s seg - inicio_s seg))
    by (unfold mitad; field).
  destruct (expandir_rama_expansion mejor segmentos duracion_objetivo seg ult
              Hseg Hult Hcorto mitad Hmitad)
    as (a & b & Hexp & [(Hno & _)|(_ & -> & Ha)]); [clearbody mitad; lra|].
  clearbody mitad. split.
  - intros Hlargo. destruct Ha as [[Hle _]|[_ ->]]; [lra|].
    split; [exact Hexp|]. ring.
  - intros Hcorta. destruct Ha as [[_ ->]|[Hpos _]]; [exact Hexp|lra].
Qed.


(** X14.  The expander raises [IndexError] when the index of the candidate
    is not below the number of segments, and returns a window for every
    index below it, whatever the target duration is. *)
Theorem expandir_indice_fuera (mejor : puntaje) (segmentos : list segmento)
    (duracion_objetivo : Q) :
  ((length segmentos <= indice mejor)%nat ->
   expandir_segmento mejor segmentos duracion_objetivo
   = Raise (IndexError "list index out of range"))
  /\ ((indice mejor < length segmentos)%nat ->
      exists nuevo_inicio nuevo_fin,
        expandir_segmento mejor segmentos duracion_objetivo
        = Ok (nuevo_inicio, nuevo_fin)).
Proof.
  split.
  - intros Hge. unfold expandir_segmento, getitem.
    by rewrite lookup_ge_None_2.
  - intros Hlt.
    destruct (lookup_lt_is_Some_2 segmentos _ Hlt) as [seg Hseg].
    destruct (lookup_last_is_Some _ _ _ Hseg) as [ult Hult].
    unfold expandir_segmento, getitem, getitem_ultimo. rewrite Hseg, Hult.
    cbn [bind].
    destruct (Qle_bool duracion_objetivo _); [eauto|].
    destruct (negb _); eauto.
Qed.

(** ** The pipeline as a whole *)







(** ** The exporter *)

(** X17.  When the exporter returns, it has read the file, cut the clip
    from [inicio_s * 1000] to [fin_s * 1000], faded it in and then out by
    one same duration and exported the result to the output path; that
    duration is at most 1000 ms and at most a tenth of the length of the
    clip, and it is 1000 ms for every clip of at least 10 s. *)
Theorem exportar_fundidos (L : Librerias) (path salida : string)
    (inicio fin : Q) :
  exportar_coro_refinado L path inicio fin salida = Ok tt ->
  exists pista fragmento con_entrada con_salida fade_duration,
    AudioSegment_from_file L path = Ok pista
    /\ audio_slice L pista (inicio * 1000) (fin * 1000) = Ok fragmento
    /\ audio_fade_in L fragmento fade_duration = Ok con_entrada
    /\ audio_fade_out L con_entrada fade_duration = Ok con_salida
    /\ audio_export L con_salida salida = Ok tt
    /\ (fade_duration <= 1000)%nat
    /\ (10 * fade_duration <= audio_len L fragmento)%nat
    /\ (10 * 1000 <= audio_len L fragmento -> fade_duration = 1000)%nat.
Proof.
  unfold exportar_coro_refinado. intros Hexp.
  destruct (AudioSegment_from_file L path) as [pista|e] eqn:H1;
    cbn [bind] in Hexp; [|discriminate].
  destruct (audio_slice L pista (inicio * 1000) (fin * 1000))
    as [fragmento|e] eqn:H2; cbn [bind] in Hexp; [|discriminate].
  set (d := Nat.min 1000 (audio_len L fragmento / 10)) in *.
  destruct (audio_fade_in L fragmento d) as [f1|e] eqn:H3;
    cbn [bind] in Hexp; [|discriminate].
  destruct (audio_fade_out L f1 d) as [f2|e] eqn:H4;
    cbn [bind] in Hexp; [|discriminate].
  exists pista, fragmento, f1, f2, d.
  repeat split; try assumption.
  - subst d. lia.
  - subst d.
    pose proof (Nat.Div0.mul_div_le (audio_len L fragmento) 10). lia.
  - intros Hlargo. subst d.
    assert (1000 <= audio_len L fragmento / 10)%nat; [|lia].
    apply Nat.div_le_lower_bound; lia.
Qed.

(** ** File names *)

Lemma elem_of_lstrip blanco s c : c ∈ lstrip blanco s -> c ∈ s.
Proof.
  induction s as [|d s IH]; simpl; [done|].
  destruct (blanco d); [|done]. intros Hc. right. by apply IH.
Qed.

Lemma elem_of_strip blanco s c : c ∈ strip blanco s -> c ∈ s.
Proof.
  unfold strip. rewrite list_elem_of_In, <- in_rev, <- list_elem_of_In.
  intros Hc. apply elem_of_lstrip in Hc.
  rewrite list_elem_of_In, <- in_rev, <- list_elem_of_In in Hc.
  by apply elem_of_lstrip in Hc.
Qed.

Lemma elem_of_colapsar blanco s : forall en_blanco c,
  c ∈ colapsar blanco en_blanco s ->
  c = guion_bajo \/ (c ∈ s /\ blanco c = false).
Proof.
  induction s as [|d s IH]; intros en_blanco c; simpl.
  { intros Hc. by apply elem_of_nil in Hc. }
  destruct (blanco d) eqn:Hd.
  - destruct en_blanco.
    + intros Hc. destruct (IH _ _ Hc) as [->|[Hin Hb]]; [by left|].
      right. split; [by right|done].
    + intros Hc. apply elem_of_cons in Hc as [->|Hc]; [by left|].
      destruct (IH _ _ Hc) as [->|[Hin Hb]]; [by left|].
      right. split; [by right|done].
  - intros Hc. apply elem_of_cons in Hc as [->|Hc].
    + right. split; [by left|done].
    + destruct (IH _ _ Hc) as [->|[Hin Hb]]; [by left|].
      right. split; [by right|done].
Qed.

Lemma elem_of_quitar clase s c : c ∈ quitar clase s <-> c ∈ s /\ clase c = false.
Proof.
  unfold quitar. rewrite !list_elem_of_In, filter_In, negb_true_iff. done.
Qed.

(** X18.  The name returned by [normalizar_nombre] has at most 100
    characters, none of them among the nine characters removed first
    (less-than, greater-than, colon, double quote, slash, backslash,
    vertical bar, question mark, asterisk), and each of them is an
    underscore or a character that is not white space and is a word
    character or a hyphen. *)
Theorem normalizar_nombre_valido (U : Unicode) (nombre : texto) :
  (length (normalizar_nombre U nombre) <= 100)%nat
  /\ forall c, c ∈ normalizar_nombre U nombre ->
       es_prohibido c = false
       /\ (c = guion_bajo
           \/ (es_espacio U c = false
               /\ (es_palabra U c = true \/ c = guion))).
Proof.
  unfold normalizar_nombre.
  set (t1 := reemplazar 380 122 _).
  set (t2 := quitar es_prohibido t1).
  set (t3 := quitar _ t2).
  set (t4 := colapsar (es_espacio U) false (strip (es_espacio_str U) t3)).
  assert (Hchars : forall c, c ∈ t4 ->
            es_prohibido c = false
            /\ (c = guion_bajo
                \/ (es_espacio U c = false
                    /\ (es_palabra U c = true \/ c = guion)))).
  { intros c Hc. apply elem_of_colapsar in Hc as [->|[Hc Hblanco]].
    { split; [reflexivity|by left]. }
    apply elem_of_strip in Hc. apply elem_of_quitar in Hc as [Hc Hclase].
    apply elem_of_quitar in Hc as [_ Hproh].
    split; [exact Hproh|]. right. split; [exact Hblanco|].
    apply negb_false_iff in Hclase. rewrite Hblanco, orb_false_r in Hclase.
    apply orb_true_iff in Hclase as [Hw|Hg]; [by left|].
    right. by apply N.eqb_eq in Hg. }
  destruct (Nat.ltb_spec 100 (length t4)) as [Hlargo|Hcorto].
  - split; [rewrite length_take; lia|].
    intros c Hc. apply Hchars.
    apply elem_of_take in Hc as (i & Hi & _). eapply list_elem_of_lookup_2, Hi.
  - split; [exact Hcorto|exact Hchars].
Qed.

(** ** The downloaded file *)

Lemma py_max_key_spec resto : forall mejor clave,
  st_mtime mejor = Ok clave ->
  Forall (fun a => exists q, st_mtime a = Ok q) resto ->
  exists a q,
    py_max_key mejor clave resto = Ok a
    /\ (a = mejor \/ a ∈ resto)
    /\ st_mtime a = Ok q
    /\ clave <= q
    /\ forall b qb, b ∈ resto -> st_mtime b = Ok qb -> qb <= q.
Proof.
  induction resto as [|x resto IH]; intros mejor clave Hm Hall; simpl.
  { exists mejor, clave. split; [done|]. split; [by left|]. split; [done|].
    split; [lra|]. intros b qb Hb. by apply elem_of_nil in Hb. }
  apply Forall_cons in Hall as [[k Hk] Hall]. rewrite Hk. cbn [bind].
  destruct (Qle_bool k clave) eqn:Hle.
  - apply Qle_bool_iff in Hle.
    destruct (IH mejor clave Hm Hall) as (a & q & Hres & Hin & Ha & Hq & Hmax).
    exists a, q. split; [done|]. split; [destruct Hin; [by left|right; by right]|].
    split; [done|]. split; [done|].
    intros b qb Hb Hqb. apply elem_of_cons in Hb as [->|Hb]; [|by eapply Hmax].
    rewrite Hk in Hqb. injection Hqb as <-. lra.
  - apply not_true_iff_false in Hle. rewrite Qle_bool_iff in Hle.
    destruct (IH x k Hk Hall) as (a & q & Hres & Hin & Ha & Hq & Hmax).
    exists a, q. split; [done|].
    split; [right; destruct Hin as [->|Hin]; [by left|by right]|].
    split; [done|]. split; [lra|].
    intros b qb Hb Hqb. apply elem_of_cons in Hb as [->|Hb]; [|by eapply Hmax].
    rewrite Hk in Hqb. injection Hqb as <-. lra.
Qed.

(** X19.  [buscar_mp3_descargado] returns [None] exactly when the three
    searches find no file; when there is a file and every modification time
    can be read, it returns one of the files found, and no file found has a
    later modification time. *)
Theorem buscar_mp3_descargado_reciente (mp3 m4a wav : list archivo) :
  (buscar_mp3_descargado mp3 m4a wav = Ok None
   <-> mp3 = [] /\ m4a = [] /\ wav = [])
  /\ (Forall (fun a => exists q, st_mtime a = Ok q) (mp3 ++ m4a ++ wav) ->
      mp3 ++ m4a ++ wav <> [] ->
      exists a q,
        buscar_mp3_descargado mp3 m4a wav = Ok (Some a)
        /\ a ∈ mp3 ++ m4a ++ wav
        /\ st_mtime a = Ok q
        /\ forall b qb, b ∈ mp3 ++ m4a ++ wav -> st_mtime b = Ok qb ->
             qb <= q).
Proof.
  unfold buscar_mp3_descargado. split.
  - split.
    + destruct (mp3 ++ m4a ++ wav) as [|a resto] eqn:Hl.
      * intros _. apply app_eq_nil in Hl as [-> Hl].
        apply app_eq_nil in Hl as [-> ->]. done.
      * destruct (st_mtime a) as [k|e]; cbn [bind]; [|discriminate].
        destruct (py_max_key a k resto); cbn [bind]; discriminate.
    + intros (-> & -> & ->). reflexivity.
  - intros Hall Hne.
    destruct (mp3 ++ m4a ++ wav) as [|x resto]; [congruence|].
    apply Forall_cons in Hall as [[k Hk] Hall]. rewrite Hk. cbn [bind].
    destruct (py_max_key_spec resto x k Hk Hall)
      as (a & q & Hres & Hin & Ha & Hq & Hmax).
    rewrite Hres. cbn [bind]. exists a, q. split; [done|].
    split; [destruct Hin as [->|Hin]; [by left|by right]|].
    split; [done|].
    intros b qb Hb Hqb. apply elem_of_cons in Hb as [->|Hb]; [|by eapply Hmax].
    rewrite Hk in Hqb. injection Hqb as <-. exact Hq.
Qed.

(** ** The main loop *)

Section LoteProps.

Variable U : Unicode.

Lemma bucle_saltar proc ult n : forall l i c,
  (i + n <= S ult)%nat ->
  bucle U proc ult i l c = bucle U proc ult (i + n) (drop n l) c.
Proof.
  induction n as [|n IH]; intros l i c Hi.
  { by rewrite Nat.add_0_r, drop_0. }
  destruct l as [|row l]; [reflexivity|]. cbn [bucle drop].
  destruct (Nat.leb_spec i ult) as [_|Hgt]; [|lia].
  rewrite IH by lia. f_equal. lia.
Qed.

Lemma bucle_ext proc proc' ult i0 l : forall i c,
  (forall t a j, (i0 <= j)%nat -> proc t a j = proc' t a j) ->
  (i0 <= i)%nat ->
  bucle U proc ult i l c = bucle U proc' ult i l c.
Proof.
  induction l as [|row l IH]; intros i c Heq Hi; [reflexivity|].
  cbn [bucle].
  destruct (i <=? ult)%nat; [apply IH; [assumption|lia]|].
  destruct (leer_celda U (track_name row)) as [t|e]; [|reflexivity].
  destruct (leer_celda U (track_artist row)) as [a|e]; [|reflexivity].
  destruct (vacio t || vacio a); [apply IH; [assumption|lia]|].
  rewrite <- (Heq t a i Hi).
  destruct (proc t a i); rewrite ?(IH (S i)) by (assumption || lia);
    reflexivity.
Qed.

Lemma bucle_ultima proc ult ult' l : forall i c,
  (ult < i)%nat -> (ult' < i)%nat ->
  bucle U proc ult i l c = bucle U proc ult' i l c.
Proof.
  induction l as [|row l IH]; intros i c H1 H2; [reflexivity|].
  cbn [bucle].
  destruct (Nat.leb_spec i ult) as [?|_]; [lia|].
  destruct (Nat.leb_spec i ult') as [?|_]; [lia|].
  destruct (leer_celda U (track_name row)) as [t|e]; [|reflexivity].
  destruct (leer_celda U (track_artist row)) as [a|e]; [|reflexivity].
  destruct (vacio t || vacio a); [apply IH; lia|].
  destruct (proc t a i); rewrite ?(IH (S i)) by lia; reflexivity.
Qed.

Lemma bucle_procesadas proc ult l : forall i c p c' evs n,
  bucle U proc ult i l c = (p, c', evs) ->
  exists c'',
    bucle U proc ult i l
      {| c_procesadas := n; c_exitosas := c_exitosas c;
         c_fallidas := c_fallidas c |} = (p, c'', evs)
    /\ c_exitosas c'' = c_exitosas c' /\ c_fallidas c'' = c_fallidas c'.
Proof.
  induction l as [|row l IH]; intros i c p c' evs n; cbn [bucle].
  { intros [= <- <- <-]. eexists. split; [reflexivity|]. split; reflexivity. }
  destruct (i <=? ult)%nat; [apply IH|].
  destruct (leer_celda U (track_name row)) as [t|e].
  2:{ intros [= <- <- <-]. eexists. split; [reflexivity|]. split; reflexivity. }
  destruct (leer_celda U (track_artist row)) as [a|e].
  2:{ intros [= <- <- <-]. eexists. split; [reflexivity|]. split; reflexivity. }
  destruct (vacio t || vacio a); [apply IH|].
  destruct (proc t a i) as [ok|e|].
  - destruct (bucle U proc ult (S i) l (contar ok _)) as [[p1 c1] e1] eqn:Hb.
    intros [= <- <- <-].
    destruct (IH _ _ _ _ _ (S n) Hb) as (c'' & Hb' & Hex & Hfa).
    cbn [c_exitosas c_fallidas c_procesadas] in *.
    unfold contar in Hb' |- *. cbn [c_exitosas c_fallidas c_procesadas] in *.
    rewrite Hb'. eexists. split; [reflexivity|]. split; assumption.
  - destruct (bucle U proc ult (S i) l (contar false _)) as [[p1 c1] e1] eqn:Hb.
    intros [= <- <- <-].
    destruct (IH _ _ _ _ _ (S n) Hb) as (c'' & Hb' & Hex & Hfa).
    unfold contar in Hb' |- *. cbn [c_exitosas c_fallidas c_procesadas] in *.
    rewrite Hb'. eexists. split; [reflexivity|]. split; assumption.
  - intros [= <- <- <-]. eexists. split; [reflexivity|]. split; reflexivity.
Qed.

Lemma bucle_ok_saltar ult i n c p c' evs :
  bucle_ok ult (S i) n c p c' evs -> bucle_ok ult i (S n) c p c' evs.
Proof.
  intros (H1 & H2 & H3 & H4 & H5 & H6).
  repeat split; try lia.
  - destruct p; [exact I|lia|lia].
  - eapply Forall_impl; [exact H6|]. intros ev (g & -> & Hg).
    exists g. split; [reflexivity|]. lia.
Qed.

Lemma bucle_ok_parar ult i n c p :
  (ult < i)%nat ->
  match p with
  | FinDeFilas => False
  | Interrumpida j | Abortada j _ => j = i
  end ->
  bucle_ok ult i (S n) c p
    {| c_procesadas := pendiente p + c_procesadas c;
       c_exitosas := c_exitosas c; c_fallidas := c_fallidas c |} [].
Proof.
  intros Hi Hp. unfold bucle_ok. cbn [c_exitosas c_fallidas c_procesadas].
  repeat split; try lia.
  - destruct p; simpl; lia.
  - destruct p; [done|lia|lia].
  - constructor.
Qed.

Lemma bucle_ok_contar ult i n c ok p c' evs :
  (ult < i)%nat ->
  bucle_ok ult (S i) n
    (contar ok {| c_procesadas := S (c_procesadas c);
                  c_exitosas := c_exitosas c;
                  c_fallidas := c_fallidas c |}) p c' evs ->
  bucle_ok ult i (S n) c p c'
    ((if (i mod 5 =? 0)%nat
      then [Guardar
              {| ultima_fila := i;
                 exitosas := c_exitosas
                   (contar ok {| c_procesadas := S (c_procesadas c);
                                 c_exitosas := c_exitosas c;
                                 c_fallidas := c_fallidas c |});
                 fallidas := c_fallidas
                   (contar ok {| c_procesadas := S (c_procesadas c);
                                 c_exitosas := c_exitosas c;
                                 c_fallidas := c_fallidas c |}) |}]
      else []) ++ evs).
Proof.
  intros Hi (H1 & H2 & H3 & H4 & H5 & H6).
  unfold contar in *. cbn [c_exitosas c_fallidas c_procesadas] in *.
  repeat split; try (destruct ok; lia).
  - destruct p; [exact I|lia|lia].
  - apply Forall_app. split.
    + destruct (Nat.eqb_spec (i mod 5) 0) as [Hmod|_]; [|constructor].
      constructor; [|constructor].
      eexists. split; [reflexivity|]. cbn [ultima_fila exitosas fallidas].
      destruct ok; lia.
    + eapply Forall_impl; [exact H6|]. intros ev (g & -> & Hg).
      cbn [c_exitosas c_fallidas c_procesadas] in Hg.
      exists g. split; [reflexivity|]. destruct ok; lia.
Qed.

Lemma bucle_invariante proc ult l : forall i c p c' evs,
  bucle U proc ult i l c = (p, c', evs) ->
  bucle_ok ult i (length l) c p c' evs.
Proof.
  induction l as [|row l IH]; intros i c p c' evs; cbn [bucle length].
  { intros [= <- <- <-]. unfold bucle_ok. simpl.
    repeat split; try lia. constructor. }
  destruct (Nat.leb_spec i ult) as [Hle|Hgt].
  { intros Hb. apply bucle_ok_saltar, IH, Hb. }
  destruct (leer_celda U (track_name row)) as [t|e].
  2:{ intros [= <- <- <-].
      apply (bucle_ok_parar ult i (length l) c (Abortada i e)); [lia|done]. }
  destruct (leer_celda U (track_artist row)) as [a|e].
  2:{ intros [= <- <- <-].
      apply (bucle_ok_parar ult i (length l) c (Abortada i e)); [lia|done]. }
  destruct (vacio t || vacio a).
  { intros Hb. apply bucle_ok_saltar, IH, Hb. }
  destruct (proc t a i) as [ok|e|].
  - destruct (bucle U proc ult (S i) l (contar ok _)) as [[p1 c1] e1] eqn:Hb.
    intros [= <- <- <-].
    apply (bucle_ok_contar ult i (length l) c ok); [lia|]. apply IH, Hb.
  - destruct (bucle U proc ult (S i) l (contar false _)) as [[p1 c1] e1] eqn:Hb.
    intros [= <- <- <-].
    apply (bucle_ok_contar ult i (length l) c false); [lia|]. apply IH, Hb.
  - intros [= <- <- <-].
    apply (bucle_ok_parar ult i (length l) c (Interrumpida i)); [lia|done].
Qed.

Lemma bucle_guardado proc ult l : forall i c p c' evs g,
  bucle U proc ult i l c = (p, c', evs) ->
  Guardar g ∈ evs ->
  forall n, exists c'' evs'',
    bucle U proc ult (S (ultima_fila g)) (drop (S (ultima_fila g) - i) l)
      {| c_procesadas := n; c_exitosas := exitosas g;
         c_fallidas := fallidas g |} = (p, c'', evs'')
    /\ c_exitosas c'' = c_exitosas c' /\ c_fallidas c'' = c_fallidas c'.
Proof.
  induction l as [|row l IH]; intros i c p c' evs g; cbn [bucle].
  { intros [= <- <- <-] Hg. by apply elem_of_nil in Hg. }
  assert (Hrec : forall cc e1,
            bucle U proc ult (S i) l cc = (p, c', e1) -> Guardar g ∈ e1 ->
            forall n, exists c'' evs'',
              bucle U proc ult (S (ultima_fila g))
                (drop (S (ultima_fila g) - i) (row :: l))
                {| c_procesadas := n; c_exitosas := exitosas g;
                   c_fallidas := fallidas g |} = (p, c'', evs'')
              /\ c_exitosas c'' = c_exitosas c'
              /\ c_fallidas c'' = c_fallidas c').
  { intros cc e1 Hb Hg n.
    destruct (bucle_invariante _ _ _ _ _ _ _ _ Hb) as (_ & _ & _ & _ & _ & Hev).
    rewrite Forall_forall in Hev.
    destruct (Hev _ Hg) as (g' & [= <-] & Hrango & _).
    replace (S (ultima_fila g) - i)%nat with (S (S (ultima_fila g) - S i))
      by lia.
    cbn [drop]. eapply IH; eassumption. }
  destruct (i <=? ult)%nat; [intros Hb Hg; eapply Hrec; eassumption|].
  destruct (leer_celda U (track_name row)) as [t|e].
  2:{ intros [= <- <- <-] Hg. by apply elem_of_nil in Hg. }
  destruct (leer_celda U (track_artist row)) as [a|e].
  2:{ intros [= <- <- <-] Hg. by apply elem_of_nil in Hg. }
  destruct (vacio t || vacio a); [intros Hb Hg; eapply Hrec; eassumption|].
  assert (Hproc : forall ok p1 c1 e1,
            bucle U proc ult (S i) l
              (contar ok {| c_procesadas := S (c_procesadas c);
                            c_exitosas := c_exitosas c;
                            c_fallidas := c_fallidas c |}) = (p1, c1, e1) ->
            Guardar g ∈
              (if (i mod 5 =? 0)%nat
               then [Guardar
                       {| ultima_fila := i;
                          exitosas := c_exitosas
                            (contar ok {| c_procesadas := S (c_procesadas c);
                                          c_exitosas := c_exitosas c;
                                          c_fallidas := c_fallidas c |});
                          fallidas := c_fallidas
                            (contar ok {| c_procesadas := S (c_procesadas c);
                                          c_exitosas := c_exitosas c;
                                          c_fallidas := c_fallidas c |}) |}]
               else []) ++ e1 ->
            p1 = p -> c1 = c' ->
            forall n, exists c'' evs'',
              bucle U proc ult (S (ultima_fila g))
                (drop (S (ultima_fila g) - i) (row :: l))
                {| c_procesadas := n; c_exitosas := exitosas g;
                   c_fallidas := fallidas g |} = (p, c'', evs'')
              /\ c_exitosas c'' = c_exitosas c'
              /\ c_fallidas c'' = c_fallidas c').
  { intros ok p1 c1 e1 Hb Hg -> -> n.
    apply elem_of_app in Hg as [Hg|Hg]; [|eapply Hrec; eassumption].
    destruct (i mod 5 =? 0)%nat; [|by apply elem_of_nil in Hg].
    apply list_elem_of_singleton in Hg. injection Hg as ->.
    cbn [ultima_fila exitosas fallidas].
    replace (S i - i)%nat with 1%nat by lia. cbn [drop]. rewrite drop_0.
    destruct (bucle_procesadas _ _ _ _ _ _ _ _ n Hb) as (c'' & Hb' & He & Hf).
    exists c'', e1. split; [exact Hb'|]. split; assumption. }
  destruct (proc t a i) as [ok|e|].
  - destruct (bucle U proc ult (S i) l (contar ok _)) as [[p1 c1] e1] eqn:Hb.
    intros [= Hp Hc He] Hg. subst evs. eapply Hproc; eassumption.
  - destruct (bucle U proc ult (S i) l (contar false _)) as [[p1 c1] e1] eqn:Hb.
    intros [= Hp Hc He] Hg. subst evs. eapply (Hproc false); eassumption.
  - intros [= <- <- <-] Hg. by apply elem_of_nil in Hg.
Qed.

(** X20.  The main loop does not look at the rows up to the saved row
    number: two runs from the same saved progress over files with the same
    number of rows, the same rows after the saved row number and songs that
    end the same way after it, end the same way, with the same counters and
    the same operations on the progress file. *)
Theorem principal_salta_filas_previas
    (proc proc' : texto -> texto -> nat -> salida_cancion)
    (inicial : progreso) (filas filas' : list fila_csv) :
  length filas = length filas' ->
  drop (ultima_fila inicial) filas = drop (ultima_fila inicial) filas' ->
  (forall t a i, (ultima_fila inicial < i)%nat -> proc t a i = proc' t a i) ->
  principal U proc inicial filas = principal U proc' inicial filas'.
Proof.
  intros Hlen Hdrop Hproc. unfold principal.
  rewrite (bucle_saltar proc _ (ultima_fila inicial) filas 1) by lia.
  rewrite (bucle_saltar proc' _ (ultima_fila inicial) filas' 1) by lia.
  rewrite Hdrop, Hlen.
  rewrite (bucle_ext proc proc' _ (S (ultima_fila inicial)))
    by (intros; apply Hproc; lia) || lia.
  destruct filas, filas'; try discriminate; reflexivity.
Qed.


(** X22.  Resuming gives the same totals: when a run reaches the end of the
    rows, a new run started from any progress it has written, over the
    same rows and with songs ending the same way, reaches the end of the
    rows with the same numbers of successes and failures. *)
Theorem principal_reanudar
    (proc : texto -> texto -> nat -> salida_cancion)
    (inicial : progreso) (filas : list fila_csv) (c : contadores)
    (eventos : list evento) (g : progreso) :
  principal U proc inicial filas = (FinDeFilas, c, eventos) ->
  Guardar g ∈ eventos ->
  exists c' eventos',
    principal U proc g filas = (FinDeFilas, c', eventos')
    /\ c_exitosas c' = c_exitosas c
    /\ c_fallidas c' = c_fallidas c.
Proof.
  unfold principal.
  destruct (bucle U proc (ultima_fila inicial) 1 filas _)
    as [[p0 c0] e0] eqn:Hb.
  destruct p0 as [|j|j e]; [|discriminate|discriminate].
  destruct filas as [|row filas]; [discriminate|].
  intros [= <- <-] Hg.
  apply elem_of_app in Hg as [Hg|Hg].
  - destruct (bucle_invariante _ _ _ _ _ _ _ _ Hb) as (_ & _ & _ & _ & _ & Hev).
    rewrite Forall_forall in Hev.
    destruct (Hev _ Hg) as (g' & [= <-] & Hrango & Hult & _).
    destruct (bucle_guardado _ _ _ _ _ _ _ _ _ Hb Hg 0%nat)
      as (c' & e' & Hb' & He & Hf).
    rewrite (bucle_saltar proc _ (ultima_fila g) (row :: filas) 1) by lia.
    rewrite (bucle_ultima proc (ultima_fila g) (ultima_fila inicial))
      by lia.
    replace (S (ultima_fila g) - 1)%nat with (ultima_fila g) in Hb' by lia.
    change (1 + ultima_fila g)%nat with (S (ultima_fila g)).
    rewrite Hb'. eexists _, _. split; [reflexivity|]. split; assumption.
  - assert (Hg' : g = {| ultima_fila := length (row :: filas);
                         exitosas := c_exitosas c0;
                         fallidas := c_fallidas c0 |}).
    { apply elem_of_cons in Hg as [[= ->]|Hg]; [reflexivity|].
      apply list_elem_of_singleton in Hg. discriminate. }
    subst g. cbn [ultima_fila exitosas fallidas].
    rewrite (bucle_saltar proc _ (length (row :: filas)) (row :: filas) 1)
      by lia.
    rewrite drop_all. cbn [bucle].
    eexists _, _. split; [reflexivity|]. split; reflexivity.
Qed.


End LoteProps.

(** ** Concrete runs of the further properties *)

(** The segmenter at one frame per second, with a window of two frames and
    a stride of one, on four aligned frames: windows [0, 2) and [1, 3). *)
Lemma segmentar_cuatro_frames :
  segmentar (caracteristicas_de 4) 512 2 1
  = Ok [construir_segmento (caracteristicas_de 4) 512 2 0;
        construir_segmento (caracteristicas_de 4) 512 2 1].
Proof. reflexivity. Qed.

Lemma streams_alineados_cuatro : streams_alineados (caracteristicas_de 4).
Proof.
  split; [discriminate|]. split; [discriminate|].
  split; repeat constructor.
Qed.

Lemma segmentar_ventanas_completas_testigo :
  segmentar (caracteristicas_de 4) 512 2 1
  = Ok [construir_segmento (caracteristicas_de 4) 512 2 0;
        construir_segmento (caracteristicas_de 4) 512 2 1]
  /\ [construir_segmento (caracteristicas_de 4) 512 2 0;
      construir_segmento (caracteristicas_de 4) 512 2 1] !! 1%nat
     = Some (construir_segmento (caracteristicas_de 4) 512 2 1)
  /\ (fin_frame (construir_segmento (caracteristicas_de 4) 512 2 1)
      < length (rms (caracteristicas_de 4)))%nat.
Proof.
  split; [exact segmentar_cuatro_frames|]. split; [reflexivity|].
  destruct (segmentar_ventanas_completas (caracteristicas_de 4) 512 2 1 _ 1 _
              segmentar_cuatro_frames eq_refl) as (_ & _ & Hfin & _).
  exact Hfin.
Defined.


Lemma similitud_streams_alineados_testigo :
  streams_alineados (caracteristicas_de 4)
  /\ segmentar (caracteristicas_de 4) 512 2 1
     = Ok [construir_segmento (caracteristicas_de 4) 512 2 0;
           construir_segmento (caracteristicas_de 4) 512 2 1]
  /\ (0 < 1)%nat
  /\ np_corrcoef libs_prueba [0; 1; 0; 1] [1; 2; 1; 2] = Ok (FNum 1)
  /\ np_corrcoef libs_prueba [0; 1; 0; 1] [1; 2; 1; 2] = Ok (FNum 1)
  /\ mget (calcular_similitudes libs_prueba
             [construir_segmento (caracteristicas_de 4) 512 2 0;
              construir_segmento (caracteristicas_de 4) 512 2 1]) 0 1
     = 1 * 0.7 + 1 * 0.3.
Proof.
  assert (Hc : np_corrcoef libs_prueba [0; 1; 0; 1] [1; 2; 1; 2]
               = Ok (FNum 1)) by (vm_compute; reflexivity).
  split; [exact streams_alineados_cuatro|].
  split; [exact segmentar_cuatro_frames|]. split; [lia|].
  split; [exact Hc|]. split; [exact Hc|].
  destruct (similitud_streams_alineados libs_prueba (caracteristicas_de 4)
              512 2 1 _ 0 1 _ _ (FNum 1) (FNum 1) streams_alineados_cuatro
              segmentar_cuatro_frames ltac:(lia) eq_refl eq_refl Hc Hc)
    as (_ & _ & Hsim).
  exact Hsim.
Defined.

Lemma corrcoef_acotado_recortada : corrcoef_acotado libs_recortada.
Proof.
  intros x y q. cbn [np_corrcoef libs_recortada]. unfold recortar.
  destruct (pearson x y) as [[r|]|e]; try discriminate.
  intros [= <-].
  destruct (Qle_bool r (-1)) eqn:H1; [lra|].
  destruct (Qle_bool 1 r) eqn:H2; [lra|].
  apply not_true_iff_false in H1, H2. rewrite Qle_bool_iff in H1, H2. lra.
Qed.

Lemma similitudes_acotadas_testigo :
  corrcoef_acotado libs_recortada
  /\ -1 <= mget (calcular_similitudes libs_recortada trio_prueba) 0 1 <= 1.
Proof.
  split; [exact corrcoef_acotado_recortada|].
  exact (similitudes_acotadas libs_recortada trio_prueba 0 1
           corrcoef_acotado_recortada).
Defined.

Lemma divisores_no_nulos_trio : divisores_no_nulos trio_prueba.
Proof. repeat split; vm_compute; discriminate. Qed.

Lemma calcular_score_coro_ordenado_testigo :
  divisores_no_nulos trio_prueba
  /\ length (calcular_score_coro trio_prueba
               (calcular_similitudes libs_prueba trio_prueba))
     = length trio_prueba.
Proof.
  split; [exact divisores_no_nulos_trio|].
  exact (proj1 (calcular_score_coro_ordenado trio_prueba
                  (calcular_similitudes libs_prueba trio_prueba)
                  divisores_no_nulos_trio)).
Defined.

Lemma mejor_candidato_maximo_testigo :
  divisores_no_nulos trio_prueba
  /\ calcular_score_coro trio_prueba
    (calcular_similitudes libs_prueba trio_prueba) !! 0%nat
  = Some (puntuar trio_prueba (calcular_similitudes libs_prueba trio_prueba) 0
            (segmento_de 2 14 [[1; 2; 3]] [[1; 2; 4]]))
  /\ trio_prueba !! 2%nat = Some (segmento_de 78 90 [[1; 2; 3]] [[1; 2; 4]])
  /\ score_total
       (puntuar trio_prueba (calcular_similitudes libs_prueba trio_prueba) 2
          (segmento_de 78 90 [[1; 2; 3]] [[1; 2; 4]]))
     <= score_total
          (puntuar trio_prueba (calcular_similitudes libs_prueba trio_prueba) 0
             (segmento_de 2 14 [[1; 2; 3]] [[1; 2; 4]])).
Proof.
  assert (H1 : calcular_score_coro trio_prueba
                 (calcular_similitudes libs_prueba trio_prueba) !! 0%nat
               = Some (puntuar trio_prueba
                         (calcular_similitudes libs_prueba trio_prueba) 0
                         (segmento_de 2 14 [[1; 2; 3]] [[1; 2; 4]])))
    by (vm_compute; reflexivity).
  split; [exact divisores_no_nulos_trio|].
  split; [exact H1|]. split; [reflexivity|].
  destruct (mejor_candidato_maximo trio_prueba
              (calcular_similitudes libs_prueba trio_prueba) _ 2 _
              divisores_no_nulos_trio H1 eq_refl)
    as (Hle & _).
  exact Hle.
Defined.

Lemma normalizable_trio : normalizable trio_prueba.
Proof.
  split.
  - repeat constructor; vm_compute; discriminate.
  - repeat split; vm_compute; reflexivity.
Qed.

Lemma score_total_acotado_testigo :
  normalizable trio_prueba
  /\ puntuar trio_prueba (calcular_similitudes libs_prueba trio_prueba) 1
       (segmento_de 45 57 [[3; 1; 2]] [[2; 1; 1]])
     ∈ calcular_score_coro trio_prueba
         (calcular_similitudes libs_prueba trio_prueba)
  /\ 0 <= score_total
            (puntuar trio_prueba (calcular_similitudes libs_prueba trio_prueba)
               1 (segmento_de 45 57 [[3; 1; 2]] [[2; 1; 1]])) <= 1.
Proof.
  assert (Hin : puntuar trio_prueba
                  (calcular_similitudes libs_prueba trio_prueba) 1
                  (segmento_de 45 57 [[3; 1; 2]] [[2; 1; 1]])
                ∈ calcular_score_coro trio_prueba
                    (calcular_similitudes libs_prueba trio_prueba)).
  { apply elem_of_calcular_score_coro.
    exists 1%nat, (segmento_de 45 57 [[3; 1; 2]] [[2; 1; 1]]).
    split; reflexivity. }
  split; [exact normalizable_trio|]. split; [exact Hin|].
  destruct (score_total_acotado libs_prueba trio_prueba _ normalizable_trio Hin)
    as (_ & _ & Hcota).
  exact Hcota.
Defined.

Lemma segmentar_estadisticas_testigo :
  streams_alineados (caracteristicas_de 4)
  /\ (0 < segundos_a_frames 2 512)%nat
  /\ segmentar (caracteristicas_de 4) 512 2 1
     = Ok [construir_segmento (caracteristicas_de 4) 512 2 0;
           construir_segmento (caracteristicas_de 4) 512 2 1]
  /\ construir_segmento (caracteristicas_de 4) 512 2 0
     ∈ [construir_segmento (caracteristicas_de 4) 512 2 0;
        construir_segmento (caracteristicas_de 4) 512 2 1]
  /\ 0 < estabilidad_tonal (construir_segmento (caracteristicas_de 4) 512 2 0)
     <= 1.
Proof.
  assert (Hw : (0 < segundos_a_frames 2 512)%nat) by (vm_compute; lia).
  assert (Hin : construir_segmento (caracteristicas_de 4) 512 2 0
                ∈ [construir_segmento (caracteristicas_de 4) 512 2 0;
                   construir_segmento (caracteristicas_de 4) 512 2 1])
    by apply list_elem_of_here.
  split; [exact streams_alineados_cuatro|]. split; [exact Hw|].
  split; [exact segmentar_cuatro_frames|]. split; [exact Hin|].
  destruct (segmentar_estadisticas (caracteristicas_de 4) 512 2 1 _ _
              streams_alineados_cuatro Hw segmentar_cuatro_frames Hin)
    as (_ & _ & Hest & _).
  exact Hest.
Defined.


Lemma expandir_final_recortado_testigo :
  trio_prueba !! indice (candidato 2)
  = Some (segmento_de 78 90 [[1; 2; 3]] [[1; 2; 4]])
  /\ 90 - 78 < 30
  /\ ultimo_fin_s trio_prueba < 90 + (30 - (90 - 78)) / 2
  /\ 30 < ultimo_fin_s trio_prueba
  /\ expandir_segmento (candidato 2) trio_prueba 30
     = Ok (ultimo_fin_s trio_prueba - 30, ultimo_fin_s trio_prueba).
Proof.
  assert (H1 : trio_prueba !! indice (candidato 2)
               = Some (segmento_de 78 90 [[1; 2; 3]] [[1; 2; 4]]))
    by reflexivity.
  assert (H2 : 90 - 78 < 30) by reflexivity.
  assert (H3 : ultimo_fin_s trio_prueba < 90 + (30 - (90 - 78)) / 2)
    by reflexivity.
  assert (H4 : 30 < ultimo_fin_s trio_prueba) by reflexivity.
  destruct (expandir_final_recortado (candidato 2) trio_prueba 30 _
              H1 H2 H3) as [Hlargo _].
  destruct (Hlargo H4) as [Hexp _].
  split; [exact H1|]. split; [exact H2|]. split; [exact H3|].
  split; [exact H4|exact Hexp].
Defined.




Lemma exportar_fundidos_testigo :
  exportar_coro_refinado libs_prueba "pista.wav" 36 66 "coro.wav" = Ok tt
  /\ exists fragmento fade_duration,
       audio_slice libs_prueba 90000%Z (36 * 1000) (66 * 1000) = Ok fragmento
       /\ (fade_duration <= 1000)%nat
       /\ (10 * fade_duration <= audio_len libs_prueba fragmento)%nat.
Proof.
  assert (H1 : exportar_coro_refinado libs_prueba "pista.wav" 36 66 "coro.wav"
               = Ok tt) by (vm_compute; reflexivity).
  split; [exact H1|].
  destruct (exportar_fundidos libs_prueba "pista.wav" "coro.wav" 36 66 H1)
    as (pista & fragmento & f1 & f2 & d & Hp & Hs & _ & _ & _ & Hd & Hd10 & _).
  injection Hp as <-.
  exists fragmento, d. split; [exact Hs|]. split; [exact Hd|exact Hd10].
Defined.

Lemma buscar_mp3_descargado_reciente_testigo :
  buscar_mp3_descargado
    [{| ruta := "a.mp3"; st_mtime := Ok 3 |};
     {| ruta := "b.mp3"; st_mtime := Ok 7 |}]
    [] [{| ruta := "c.wav"; st_mtime := Ok 5 |}]
  = Ok (Some {| ruta := "b.mp3"; st_mtime := Ok 7 |})
  /\ buscar_mp3_descargado [] [] [] = Ok None.
Proof.
  split; [reflexivity|].
  exact (proj2 (proj1 (buscar_mp3_descargado_reciente [] [] []))
           (conj eq_refl (conj eq_refl eq_refl))).
Defined.

Lemma principal_salta_filas_previas_testigo :
  length filas_prueba
  = length (replicate 4 {| track_name := Nulo; track_artist := Nulo |}
            ++ drop 4 filas_prueba)
  /\ drop 4 filas_prueba
     = drop 4 (replicate 4 {| track_name := Nulo; track_artist := Nulo |}
               ++ drop 4 filas_prueba)
  /\ (forall t a i, (4 < i)%nat ->
        oraculo_par t a i = oraculo_interrumpido t a i)
  /\ principal unicode_ascii oraculo_par
       {| ultima_fila := 4; exitosas := 1; fallidas := 2 |} filas_prueba
     = principal unicode_ascii oraculo_interrumpido
         {| ultima_fila := 4; exitosas := 1; fallidas := 2 |}
         (replicate 4 {| track_name := Nulo; track_artist := Nulo |}
          ++ drop 4 filas_prueba).
Proof.
  assert (H1 : length filas_prueba
               = length (replicate 4 {| track_name := Nulo;
                                        track_artist := Nulo |}
                         ++ drop 4 filas_prueba)) by reflexivity.
  assert (H2 : drop 4 filas_prueba
               = drop 4 (replicate 4 {| track_name := Nulo;
                                        track_artist := Nulo |}
                         ++ drop 4 filas_prueba)) by reflexivity.
  assert (H3 : forall t a i, (4 < i)%nat ->
                 oraculo_par t a i = oraculo_interrumpido t a i).
  { intros t a i Hi. unfold oraculo_par, oraculo_interrumpido.
    destruct (Nat.eqb_spec i 4) as [Heq|_]; [lia|reflexivity]. }
  split; [exact H1|]. split; [exact H2|]. split; [exact H3|].
  exact (principal_salta_filas_previas unicode_ascii oraculo_par
           oraculo_interrumpido
           {| ultima_fila := 4; exitosas := 1; fallidas := 2 |}
           filas_prueba _ H1 H2 H3).
Defined.


Lemma principal_reanudar_testigo :
  principal unicode_ascii oraculo_par sin_progreso filas_prueba
  = (FinDeFilas,
     {| c_procesadas := 5; c_exitosas := 3; c_fallidas := 2 |},
     [Guardar {| ultima_fila := 5; exitosas := 2; fallidas := 2 |};
      Guardar {| ultima_fila := 6; exitosas := 3; fallidas := 2 |};
      BorrarSiExiste])
  /\ Guardar {| ultima_fila := 5; exitosas := 2; fallidas := 2 |}
     ∈ [Guardar {| ultima_fila := 5; exitosas := 2; fallidas := 2 |};
        Guardar {| ultima_fila := 6; exitosas := 3; fallidas := 2 |};
        BorrarSiExiste]
  /\ exists c' eventos',
       principal unicode_ascii oraculo_par
         {| ultima_fila := 5; exitosas := 2; fallidas := 2 |} filas_prueba
       = (FinDeFilas, c', eventos')
       /\ c_exitosas c' = 3%nat /\ c_fallidas c' = 2%nat.
Proof.
  assert (H1 : principal unicode_ascii oraculo_par sin_progreso filas_prueba
               = (FinDeFilas,
                  {| c_procesadas := 5; c_exitosas := 3; c_fallidas := 2 |},
                  [Guardar {| ultima_fila := 5; exitosas := 2;
                              fallidas := 2 |};
                   Guardar {| ultima_fila := 6; exitosas := 3;
                              fallidas := 2 |};
                   BorrarSiExiste])) by reflexivity.
  assert (H2 : Guardar {| ultima_fila := 5; exitosas := 2; fallidas := 2 |}
               ∈ [Guardar {| ultima_fila := 5; exitosas := 2; fallidas := 2 |};
                  Guardar {| ultima_fila := 6; exitosas := 3; fallidas := 2 |};
                  BorrarSiExiste]) by apply list_elem_of_here.
  split; [exact H1|]. split; [exact H2|].
  exact (principal_reanudar unicode_ascii oraculo_par sin_progreso
           filas_prueba _ _ _ H1 H2).
Defined.

